(** * Stream engine: supervisor, async reader and shutdown

    A shallow embedding of the stream supervisor ([internal/stream/type.go])
    and of the asynchronous reader adapter ([AsyncReader]) together with the
    properties of the engine specification that concern them.

    Conventions.
    - A Go [error] is an [option error]; [None] is [nil].
    - [time.Duration] is a signed 64-bit count of nanoseconds, kept in [Z]
      with the wrap-around of Go's arithmetic written out.
    - Collaborators behind interfaces (layers, connectors, the clock) answer
      through an environment; every call and its answer is appended to a
      chronological history. *)

From Stdlib Require Import ZArith List String Ascii Bool Lia.
Import ListNotations.
Open Scope Z_scope.

(** ** Durations *)

Module Time.

Definition Duration := Z.

Definition minDuration : Duration := - 2 ^ 63.
Definition maxDuration : Duration := 2 ^ 63 - 1.

Definition in64 (d : Z) : Prop := minDuration <= d <= maxDuration.

(** Two's complement reduction of a mathematical integer to int64. *)
Definition wrap64 (z : Z) : Duration := (z + 2 ^ 63) mod 2 ^ 64 - 2 ^ 63.

(** Saturation, as [Time.Sub] does for differences out of range. *)
Definition sat64 (z : Z) : Duration := Z.max minDuration (Z.min maxDuration z).

(** [a - b] on int64. *)
Definition sub (a b : Duration) : Duration := wrap64 (a - b).

(** [a / b] on int64: Go truncates toward zero. *)
Definition div (a b : Duration) : Duration := wrap64 (Z.quot a b).

Definition Nanosecond : Duration := 1.
Definition Millisecond : Duration := 1000000.
Definition Second : Duration := 1000000000.

(** [time.After d]: the delay after which the timer's channel is ready.
    A timer with a duration that is not positive fires immediately. *)
Definition After (d : Duration) : Z := Z.max 0 d.

End Time.

(** ** Component errors *)

Inductive error : Type :=
| ErrTimeout
| ErrTypeClosed
| ErrNotConnected
| ErrOther (msg : string).

Definition error_eqb (a b : error) : bool :=
  match a, b with
  | ErrTimeout, ErrTimeout => true
  | ErrTypeClosed, ErrTypeClosed => true
  | ErrNotConnected, ErrNotConnected => true
  | ErrOther x, ErrOther y => String.eqb x y
  | _, _ => false
  end.

(** [err == sentinel] for a possibly nil [err]. *)
Definition err_is (err : option error) (sentinel : error) : bool :=
  match err with
  | Some e => error_eqb e sentinel
  | None => false
  end.

Definition is_nil {A} (x : option A) : bool :=
  match x with Some _ => false | None => true end.

(** ** The stream supervisor *)

Module Stream.

Inductive Layer : Type := Input | Buffer | Pipeline | Output.

Definition Layer_eqb (a b : Layer) : bool :=
  match a, b with
  | Input, Input | Buffer, Buffer | Pipeline, Pipeline | Output, Output => true
  | _, _ => false
  end.

(** A transaction channel is named after the layer that produces on it. *)
Inductive Chan : Type := TransactionChan (producer : Layer).

Inductive Level : Type := LInfo | LError | LDebug.

(** Calls made by the supervisor, with the collaborator's answer. *)
Inductive Event : Type :=
| ENew (l : Layer) (r : option error)
| EConsume (l : Layer) (c : Chan) (r : option error)
| EConnected (l : Layer) (b : bool)
| ECloseAsync (l : Layer)
| EStopConsuming (l : Layer)
| EWaitForClose (l : Layer) (d : Time.Duration) (r : option error)
| ENow (t : Z)
| ESince (d : Time.Duration)
| ELog (lvl : Level) (msg : string)
| ELogErr (msg : string) (e : error)
| EStackDump
| EGoWatchClose
| ERegisterEndpoint (path : string).

Definition History := list Event.

(** Answers of the collaborators, each a function of what happened so
    far. *)
Record Env : Type := {
  construct : History -> Layer -> option error;
  consume : History -> Layer -> Chan -> option error;
  is_connected : History -> Layer -> bool;
  wait_for_close : History -> Layer -> Time.Duration -> option error;
  clock : History -> Z
}.

Record BufferConfig : Type := { Type_ : string }.
Record PipelineConfig : Type := { Processors : list string }.
Record Config : Type := {
  InputConf : string;
  BufferConf : BufferConfig;
  PipelineConf : PipelineConfig;
  OutputConf : string
}.

(** [stream.Type]; a layer field is [true] when the interface value is
    not nil. *)
Record StreamType : Type := {
  conf : Config;
  inputLayer : bool;
  bufferLayer : bool;
  pipelineLayer : bool;
  outputLayer : bool
}.

Definition set_layer (l : Layer) (b : bool) (t : StreamType) : StreamType :=
  match l with
  | Input => {| conf := conf t; inputLayer := b; bufferLayer := bufferLayer t;
                pipelineLayer := pipelineLayer t; outputLayer := outputLayer t |}
  | Buffer => {| conf := conf t; inputLayer := inputLayer t; bufferLayer := b;
                 pipelineLayer := pipelineLayer t; outputLayer := outputLayer t |}
  | Pipeline => {| conf := conf t; inputLayer := inputLayer t; bufferLayer := bufferLayer t;
                   pipelineLayer := b; outputLayer := outputLayer t |}
  | Output => {| conf := conf t; inputLayer := inputLayer t; bufferLayer := bufferLayer t;
                 pipelineLayer := pipelineLayer t; outputLayer := b |}
  end.

(** [http.ResponseWriter]: the status line is fixed by the first of
    [WriteHeader] and [Write]. *)
Record ResponseWriter : Type := { statusCode : option Z; body : string }.

Definition StatusOK : Z := 200.
Definition StatusServiceUnavailable : Z := 503.

(** The line feed that ends each line of a response body. *)
Definition newline : string := String (ascii_of_nat 10) EmptyString.

Definition freshWriter : ResponseWriter := {| statusCode := None; body := EmptyString |}.

Definition WriteHeader (c : Z) (w : ResponseWriter) : ResponseWriter :=
  match statusCode w with
  | Some _ => w
  | None => {| statusCode := Some c; body := body w |}
  end.

Definition Write (b : string) (w : ResponseWriter) : ResponseWriter :=
  let w' := WriteHeader StatusOK w in
  {| statusCode := statusCode w'; body := (body w' ++ b)%string |}.

(** The status a client observes. *)
Definition status (w : ResponseWriter) : Z :=
  match statusCode w with Some c => c | None => StatusOK end.

(** *** The supervisor's monad: a history threaded through the calls *)

Definition M (A : Type) : Type := History -> A * History.

Definition ret {A} (x : A) : M A := fun h => (x, h).

Definition bind {A B} (m : M A) (k : A -> M B) : M B :=
  fun h => let (x, h') := m h in k x h'.

Definition emit (e : Event) : M unit := fun h => (tt, h ++ [e]).

(** [if err = m; err != nil { return }], then the rest. *)
Definition orReturn (m : M (option error)) (k : M (option error)) : M (option error) :=
  bind m (fun err => match err with Some e => ret (Some e) | None => k end).

Declare Scope stream_scope.
Delimit Scope stream_scope with stream.
Notation "x <- m ;; k" := (bind m (fun x => k))
  (at level 61, m at next level, right associativity) : stream_scope.
Notation "m ;; k" := (bind m (fun _ => k))
  (at level 61, right associativity) : stream_scope.
Notation "m >>? k" := (orReturn m k)
  (at level 61, right associativity) : stream_scope.
Local Open Scope stream_scope.

Section Supervisor.

Variable env : Env.

Definition NewLayer (l : Layer) : M (option error) :=
  fun h => let r := construct env h l in (r, h ++ [ENew l r]).

Definition Consume (l : Layer) (c : Chan) : M (option error) :=
  fun h => let r := consume env h l c in (r, h ++ [EConsume l c r]).

Definition Connected (l : Layer) : M bool :=
  fun h => let b := is_connected env h l in (b, h ++ [EConnected l b]).

Definition CloseAsync (l : Layer) : M unit := emit (ECloseAsync l).

Definition StopConsuming (l : Layer) : M unit := emit (EStopConsuming l).

Definition WaitForClose (l : Layer) (d : Time.Duration) : M (option error) :=
  fun h => let r := wait_for_close env h l d in (r, h ++ [EWaitForClose l d r]).

Definition Now : M Z :=
  fun h => let t := clock env h in (t, h ++ [ENow t]).

Definition Since (started : Z) : M Time.Duration :=
  fun h => let d := Time.sat64 (clock env h - started) in (d, h ++ [ESince d]).

(** [remaining = timeout - time.Since(started);
     if remaining < 0 { return ErrTimeout };
     if err = l.WaitForClose(remaining); err != nil { return }] *)
Definition waitRemaining (l : Layer) (timeout : Time.Duration) (started : Z)
  : M (option error) :=
  elapsed <- Since started ;;
  let remaining := Time.sub timeout elapsed in
  if remaining <? 0 then ret (Some ErrTimeout)
  else WaitForClose l remaining.

(** *** Readiness *)

Definition healthCheck (w : ResponseWriter) : M ResponseWriter :=
  inputConnected <- Connected Input ;;
  outputConnected <- Connected Output ;;
  if inputConnected && outputConnected then
    ret (Write "OK" w)
  else
    let w := WriteHeader StatusServiceUnavailable w in
    let w := if negb inputConnected
             then Write ("input not connected" ++ newline) w else w in
    let w := if negb outputConnected
             then Write ("output not connected" ++ newline) w else w in
    ret w.

(** Go's [&&] does not evaluate its right operand when the left one is
    false. *)
Definition IsReady : M bool :=
  i <- Connected Input ;;
  if i then Connected Output else ret false.

(** *** Construction and wiring *)

Definition start (t : StreamType) : M (option error * StreamType) :=
  err <- NewLayer Input ;;
  let t := set_layer Input (is_nil err) t in
  match err with Some e => ret (Some e, t) | None =>
  bufferStep <-
    (if negb (String.eqb (Type_ (BufferConf (conf t))) "none") then
       err <- NewLayer Buffer ;;
       ret (err, set_layer Buffer (is_nil err) t)
     else ret (None, t)) ;;
  let '(err, t) := bufferStep in
  match err with Some e => ret (Some e, t) | None =>
  pipelineStep <-
    (if 0 <? Z.of_nat (List.length (Processors (PipelineConf (conf t)))) then
       err <- NewLayer Pipeline ;;
       ret (err, set_layer Pipeline (is_nil err) t)
     else ret (None, t)) ;;
  let '(err, t) := pipelineStep in
  match err with Some e => ret (Some e, t) | None =>
  err <- NewLayer Output ;;
  let t := set_layer Output (is_nil err) t in
  match err with Some e => ret (Some e, t) | None =>
  let nextTranChan := TransactionChan Input in
  chained <-
    (if bufferLayer t then
       err <- Consume Buffer nextTranChan ;;
       ret (err, TransactionChan Buffer)
     else ret (None, nextTranChan)) ;;
  let '(err, nextTranChan) := chained in
  match err with Some e => ret (Some e, t) | None =>
  chained <-
    (if pipelineLayer t then
       err <- Consume Pipeline nextTranChan ;;
       ret (err, TransactionChan Pipeline)
     else ret (None, nextTranChan)) ;;
  let '(err, nextTranChan) := chained in
  match err with Some e => ret (Some e, t) | None =>
  err <- Consume Output nextTranChan ;;
  match err with Some e => ret (Some e, t) | None =>
  emit EGoWatchClose ;;
  ret (None, t)
  end end end end end end end.

(** [New]: a stream with no layer yet is started and, when that
    succeeds, its readiness check is registered. *)
Definition New (c : Config) : M (option StreamType * option error) :=
  let t := {| conf := c; inputLayer := false; bufferLayer := false;
              pipelineLayer := false; outputLayer := false |} in
  started <- start t ;;
  match fst started with
  | Some e => ret (None, Some e)
  | None => emit (ERegisterEndpoint "/ready") ;; ret (Some (snd started), None)
  end.

(** *** Shutdown *)

Definition StopGracefully (t : StreamType) (timeout : Time.Duration)
  : M (option error) :=
  CloseAsync Input ;;
  started <- Now ;;
  WaitForClose Input timeout >>?
  (if bufferLayer t then
     StopConsuming Buffer ;;
     waitRemaining Buffer timeout started
   else ret None) >>?
  (if pipelineLayer t then
     CloseAsync Pipeline ;;
     waitRemaining Pipeline timeout started
   else ret None) >>?
  (CloseAsync Output ;;
   waitRemaining Output timeout started) >>?
  ret None.

Definition StopOrdered (t : StreamType) (timeout : Time.Duration)
  : M (option error) :=
  CloseAsync Input ;;
  started <- Now ;;
  WaitForClose Input timeout >>?
  (if bufferLayer t then
     CloseAsync Buffer ;;
     waitRemaining Buffer timeout started
   else ret None) >>?
  (if pipelineLayer t then
     CloseAsync Pipeline ;;
     waitRemaining Pipeline timeout started
   else ret None) >>?
  (CloseAsync Output ;;
   waitRemaining Output timeout started) >>?
  ret None.

Definition StopUnordered (t : StreamType) (timeout : Time.Duration)
  : M (option error) :=
  CloseAsync Input ;;
  (if bufferLayer t then CloseAsync Buffer else ret tt) ;;
  (if pipelineLayer t then CloseAsync Pipeline else ret tt) ;;
  CloseAsync Output ;;
  started <- Now ;;
  WaitForClose Input timeout >>?
  (if bufferLayer t then waitRemaining Buffer timeout started else ret None) >>?
  (if pipelineLayer t then waitRemaining Pipeline timeout started else ret None) >>?
  waitRemaining Output timeout started >>?
  ret None.

Definition msgDrain : string :=
  "Unable to fully drain buffered messages within target time.".
Definition msgShutdownErr : string :=
  "Encountered error whilst shutting down: %v".
Definition msgFailedStop : string :=
  "Failed to stop stream gracefully within target time.".

Definition Stop (t : StreamType) (timeout : Time.Duration) : M (option error) :=
  let tOutUnordered := Time.div timeout 4 in
  let tOutGraceful := Time.sub timeout tOutUnordered in
  err <- StopGracefully t tOutGraceful ;;
  match err with
  | None => ret None
  | Some e =>
      (if error_eqb e ErrTimeout
       then emit (ELog LInfo msgDrain)
       else emit (ELogErr msgShutdownErr e)) ;;
      err <- StopUnordered t tOutUnordered ;;
      match err with
      | None => ret None
      | Some e =>
          (if error_eqb e ErrTimeout
           then emit (ELog LError msgFailedStop) ;; emit EStackDump
           else emit (ELogErr msgShutdownErr e)) ;;
          ret (Some e)
      end
  end.

End Supervisor.

End Stream.

(** ** The asynchronous reader adapter *)

Module AsyncReader.

(** A batch is an ordered sequence of message payloads. *)
Definition Batch : Type := list string.

(** The acknowledgement function a [Read] hands back, by name. *)
Definition AsyncAckFn : Type := nat.

(** *** Collaborators *)

(** [backoff.ExponentialBackOff]: the three fields the reader configures
    and the interval the policy is currently at. *)
Record ExponentialBackOff : Type := {
  InitialInterval : Time.Duration;
  MaxInterval : Time.Duration;
  MaxElapsedTime : Time.Duration;
  currentInterval : Time.Duration
}.

(** The backoff library: the value [NewExponentialBackOff] returns, and
    for [NextBackOff] the (randomised) wait it returns together with the
    interval it moves to. *)
Record BackOffLib : Type := {
  NewExponentialBackOff : ExponentialBackOff;
  nextInterval : ExponentialBackOff -> Time.Duration * Time.Duration
}.

Definition NextBackOff (lib : BackOffLib) (b : ExponentialBackOff)
  : Time.Duration * ExponentialBackOff :=
  let (wait, cur) := nextInterval lib b in
  (wait, {| InitialInterval := InitialInterval b; MaxInterval := MaxInterval b;
            MaxElapsedTime := MaxElapsedTime b; currentInterval := cur |}).

(** [Reset] puts the interval back to the initial interval. *)
Definition Reset (b : ExponentialBackOff) : ExponentialBackOff :=
  {| InitialInterval := InitialInterval b; MaxInterval := MaxInterval b;
     MaxElapsedTime := MaxElapsedTime b; currentInterval := InitialInterval b |}.

(** Modelled from the spec: the shutdown signaller ([internal/shutdown]),
    a single object exposing two orthogonal signals, at-leisure and now,
    and a has-closed latch. *)
Record Signaller : Type := {
  atLeisure : bool;
  closeNow : bool;
  hasClosed : bool
}.

Definition NewSignaller : Signaller :=
  {| atLeisure := false; closeNow := false; hasClosed := false |}.

Definition CloseAtLeisure (s : Signaller) : Signaller :=
  {| atLeisure := true; closeNow := closeNow s; hasClosed := hasClosed s |}.

Definition CloseNow (s : Signaller) : Signaller :=
  {| atLeisure := atLeisure s; closeNow := true; hasClosed := hasClosed s |}.

Definition ShutdownComplete (s : Signaller) : Signaller :=
  {| atLeisure := atLeisure s; closeNow := closeNow s; hasClosed := true |}.

Definition ShouldCloseAtLeisure (s : Signaller) : bool := atLeisure s.

(** The counters of the metrics registry the loop increments. *)
Record Counters : Type := {
  input_received : Z;
  input_connection_up : Z;
  input_connection_failed : Z;
  input_connection_lost : Z
}.

Inductive Counter : Type := mRcvd | mConn | mFailedConn | mLostConn.

Definition Incr (c : Counter) (n : Z) (m : Counters) : Counters :=
  match c with
  | mRcvd =>
      {| input_received := input_received m + n;
         input_connection_up := input_connection_up m;
         input_connection_failed := input_connection_failed m;
         input_connection_lost := input_connection_lost m |}
  | mConn =>
      {| input_received := input_received m;
         input_connection_up := input_connection_up m + n;
         input_connection_failed := input_connection_failed m;
         input_connection_lost := input_connection_lost m |}
  | mFailedConn =>
      {| input_received := input_received m;
         input_connection_up := input_connection_up m;
         input_connection_failed := input_connection_failed m + n;
         input_connection_lost := input_connection_lost m |}
  | mLostConn =>
      {| input_received := input_received m;
         input_connection_up := input_connection_up m;
         input_connection_failed := input_connection_failed m;
         input_connection_lost := input_connection_lost m + n |}
  end.

(** *** State of the adapter *)

(** Where [initConnection] was entered from.  On a reconnect the result of
    the [Read] that reported the lost connection is still pending. *)
Inductive ConnFrom : Type :=
| Initial
| Reconnect (msg : option Batch) (aFn : AsyncAckFn).

(** The points at which the loop goroutine waits for its environment. *)
Inductive PC : Type :=
| PConnect (from : ConnFrom)
| PConnBackoff (from : ConnFrom) (d : Time.Duration)
| PRead
| PReadBackoff (d : Time.Duration)
| PSend (msg : Batch) (aFn : AsyncAckFn)
| PWaitAcks
| PWaitReader
| PClosed.

(** An ack-waiter goroutine: the arguments it was spawned with and
    whether it has returned. *)
Record Waiter : Type := {
  w_msg : Batch;
  w_ackFn : AsyncAckFn;
  w_done : bool
}.

(** What an observer of the adapter and of its connector sees. *)
Inductive Obs : Type :=
| OConnect (r : option error)
| ORead (msg : option Batch) (aFn : AsyncAckFn) (err : option error)
| OLogError (format : string) (e : error)
| OLogDebug (msg : string)
| OLogTrace (n : Z)
| OReset (interval : Time.Duration)
| OSleep (d : Time.Duration)
| OSend (msg : Batch)
| OSpawnWaiter (i : nat)
| OTiming (i : nat)
| OAck (aFn : AsyncAckFn) (res : option error)
| OAbandon (i : nat)
| OReaderCloseAsync
| OReaderClosed (r : option error)
| OCloseTransactions.

Record Reader : Type := {
  connected : Z;
  connBackoff : ExponentialBackOff;
  shutSig : Signaller;
  stats : Counters;
  pc : PC;
  waiters : list Waiter;
  trace : list Obs
}.

Definition set_connected (v : Z) (r : Reader) : Reader :=
  {| connected := v; connBackoff := connBackoff r; shutSig := shutSig r;
     stats := stats r; pc := pc r; waiters := waiters r; trace := trace r |}.

Definition set_backoff (b : ExponentialBackOff) (r : Reader) : Reader :=
  {| connected := connected r; connBackoff := b; shutSig := shutSig r;
     stats := stats r; pc := pc r; waiters := waiters r; trace := trace r |}.

Definition set_shutSig (s : Signaller) (r : Reader) : Reader :=
  {| connected := connected r; connBackoff := connBackoff r; shutSig := s;
     stats := stats r; pc := pc r; waiters := waiters r; trace := trace r |}.

Definition incr (c : Counter) (n : Z) (r : Reader) : Reader :=
  {| connected := connected r; connBackoff := connBackoff r; shutSig := shutSig r;
     stats := Incr c n (stats r); pc := pc r; waiters := waiters r; trace := trace r |}.

Definition goto (p : PC) (r : Reader) : Reader :=
  {| connected := connected r; connBackoff := connBackoff r; shutSig := shutSig r;
     stats := stats r; pc := p; waiters := waiters r; trace := trace r |}.

Definition set_waiters (ws : list Waiter) (r : Reader) : Reader :=
  {| connected := connected r; connBackoff := connBackoff r; shutSig := shutSig r;
     stats := stats r; pc := pc r; waiters := ws; trace := trace r |}.

Definition observe (o : Obs) (r : Reader) : Reader :=
  {| connected := connected r; connBackoff := connBackoff r; shutSig := shutSig r;
     stats := stats r; pc := pc r; waiters := waiters r; trace := trace r ++ [o] |}.

(** [atomic.LoadInt32(&r.connected) == 1] *)
Definition Connected (r : Reader) : bool := connected r =? 1.

Definition msgFailedConnect : string := "Failed to connect to %v: %v".
Definition msgFailedRead : string := "Failed to read message: %v".
Definition msgFailedAck : string := "Failed to acknowledge message: %v".
Definition msgWaitingAcks : string :=
  "Waiting for pending acks to resolve before shutting down.".
Definition msgAcksResolved : string := "Pending acks resolved.".

(** What the environment does next. *)
Inductive Input : Type :=
| IConnect (r : option error)
| IRead (msg : option Batch) (aFn : AsyncAckFn) (err : option error)
| ITimer
| IShutdown
| ISent
| IReply (i : nat) (res : option error) (ackErr : option error)
| IAbandon (i : nat)
| IAcksResolved
| IReaderClosed (r : option error)
| ICloseAsync
| ICloseNow.

Fixpoint finish (i : nat) (ws : list Waiter) : list Waiter :=
  match ws, i with
  | [], _ => []
  | w :: ws', O => {| w_msg := w_msg w; w_ackFn := w_ackFn w; w_done := true |} :: ws'
  | w :: ws', S i' => w :: finish i' ws'
  end.

Definition pending (ws : list Waiter) : list Waiter :=
  filter (fun w => negb (w_done w)) ws.

Section Loop.

Variable lib : BackOffLib.

(** [NewAsyncReader]: the backoff is the library's default with three
    fields overwritten; the loop goroutine starts in [initConnection]. *)
Definition NewAsyncReader : Reader :=
  let boff := NewExponentialBackOff lib in
  let boff :=
    {| InitialInterval := Time.Millisecond * 100;
       MaxInterval := Time.Second;
       MaxElapsedTime := 0;
       currentInterval := currentInterval boff |} in
  {| connected := 0; connBackoff := boff; shutSig := NewSignaller;
     stats := {| input_received := 0; input_connection_up := 0;
                 input_connection_failed := 0; input_connection_lost := 0 |};
     pc := PConnect Initial; waiters := []; trace := [] |}.

(** [time.After(r.connBackoff.NextBackOff())] *)
Definition backoffTick (k : Time.Duration -> PC) (r : Reader) : Reader :=
  let (d, b) := NextBackOff lib (connBackoff r) in
  goto (k d) (observe (OSleep d) (set_backoff b r)).

(** [r.connBackoff.Reset()]; the observer sees the interval the policy
    is back at. *)
Definition resetBackoff (r : Reader) : Reader :=
  let b := Reset (connBackoff r) in
  observe (OReset (currentInterval b)) (set_backoff b r).

(** Leaving [loop]: the deferred functions run, the one that waits for
    the pending acknowledgements first. *)
Definition leave (r : Reader) : Reader :=
  goto PWaitAcks (observe (OLogDebug msgWaitingAcks) r).

(** The loop body from the shutdown check that follows a [Read] to the
    next point where the goroutine waits. *)
Definition afterRead (msg : option Batch) (aFn : AsyncAckFn) (err : option error)
    (r : Reader) : Reader :=
  if ShouldCloseAtLeisure (shutSig r) || err_is err ErrTypeClosed then leave r
  else
    match err, msg with
    | None, Some m =>
        let r := resetBackoff r in
        let r := incr mRcvd (Z.of_nat (List.length m)) r in
        let r := observe (OLogTrace (Z.of_nat (List.length m))) r in
        goto (PSend m aFn) r
    | _, _ =>
        let r :=
          match err with
          | Some e =>
              if negb (error_eqb e ErrTimeout) && negb (error_eqb e ErrNotConnected)
              then observe (OLogError msgFailedRead e) r else r
          | None => r
          end in
        backoffTick PReadBackoff r
    end.

(** One move of the adapter: the loop goroutine leaves the point it
    waits at, an ack-waiter leaves its [select], or a caller signals
    shutdown.  [None] when the move is not possible in this state. *)
Definition step (r : Reader) (i : Input) : option Reader :=
  match i with
  | ICloseAsync => Some (set_shutSig (CloseAtLeisure (shutSig r)) r)
  | ICloseNow => Some (set_shutSig (CloseNow (shutSig r)) r)
  | IReply n res ackErr =>
      match nth_error (waiters r) n with
      | Some w =>
          if w_done w then None
          else
            let r := observe (OTiming n) r in
            let r := observe (OAck (w_ackFn w) res) r in
            let r := match ackErr with
                     | Some e => observe (OLogError msgFailedAck e) r
                     | None => r
                     end in
            Some (set_waiters (finish n (waiters r)) r)
      | None => None
      end
  | IAbandon n =>
      match nth_error (waiters r) n with
      | Some w =>
          if w_done w || negb (closeNow (shutSig r)) then None
          else Some (set_waiters (finish n (waiters r)) (observe (OAbandon n) r))
      | None => None
      end
  | IConnect res =>
      match pc r with
      | PConnect from =>
          let r := observe (OConnect res) r in
          match res with
          | Some err =>
              if ShouldCloseAtLeisure (shutSig r) || error_eqb err ErrTypeClosed
              then Some (leave r)
              else
                let r := observe (OLogError msgFailedConnect err) r in
                let r := incr mFailedConn 1 r in
                Some (backoffTick (PConnBackoff from) r)
          | None =>
              let r := resetBackoff r in
              let r := incr mConn 1 r in
              let r := set_connected 1 r in
              match from with
              | Initial => Some (goto PRead r)
              | Reconnect msg aFn => Some (afterRead msg aFn (Some ErrNotConnected) r)
              end
          end
      | _ => None
      end
  | IRead msg aFn err =>
      match pc r with
      | PRead =>
          let r := observe (ORead msg aFn err) r in
          if err_is err ErrNotConnected then
            let r := incr mLostConn 1 r in
            let r := set_connected 0 r in
            Some (goto (PConnect (Reconnect msg aFn)) r)
          else Some (afterRead msg aFn err r)
      | _ => None
      end
  | ITimer =>
      match pc r with
      | PConnBackoff from _ => Some (goto (PConnect from) r)
      | PReadBackoff _ => Some (goto PRead r)
      | _ => None
      end
  | IShutdown =>
      if atLeisure (shutSig r) then
        match pc r with
        | PConnBackoff _ _ | PReadBackoff _ | PSend _ _ => Some (leave r)
        | _ => None
        end
      else None
  | ISent =>
      match pc r with
      | PSend msg aFn =>
          let n := List.length (waiters r) in
          let r := observe (OSend msg) r in
          let r := set_waiters
                     (waiters r ++ [{| w_msg := msg; w_ackFn := aFn; w_done := false |}]) r in
          Some (goto PRead (observe (OSpawnWaiter n) r))
      | _ => None
      end
  | IAcksResolved =>
      match pc r, pending (waiters r) with
      | PWaitAcks, [] =>
          let r := observe (OLogDebug msgAcksResolved) r in
          Some (goto PWaitReader (observe OReaderCloseAsync r))
      | _, _ => None
      end
  | IReaderClosed res =>
      match pc r with
      | PWaitReader =>
          let r := observe (OReaderClosed res) r in
          let r := set_connected 0 r in
          let r := observe OCloseTransactions r in
          Some (goto PClosed (set_shutSig (ShutdownComplete (shutSig r)) r))
      | _ => None
      end
  end.

Fixpoint run (r : Reader) (script : list Input) : option Reader :=
  match script with
  | [] => Some r
  | i :: script' =>
      match step r i with
      | Some r' => run r' script'
      | None => None
      end
  end.

(** The states the adapter can be in. *)
Definition reachable (r : Reader) : Prop :=
  exists script, run NewAsyncReader script = Some r.

End Loop.

(** *** Waiting for the adapter to close *)

(** The two timers [WaitForClose] arms, as delays from the call. *)
Record Timers : Type := {
  closeNowAfter : Z;
  deadline : Z
}.

Definition WaitForCloseTimers (timeout : Time.Duration) : Timers :=
  {| closeNowAfter := Time.After (Time.sub timeout Time.Second);
     deadline := Time.After timeout |}.

(** [WaitForClose]: [closedAfter] is the delay after which the has-closed
    latch is set ([None]: never); when the latch and the deadline are ready
    together [select] takes either case, [latchFirst] says which. *)
Definition WaitForClose (timeout : Time.Duration) (closedAfter : option Z)
    (latchFirst : bool) : option error :=
  let t := WaitForCloseTimers timeout in
  match closedAfter with
  | Some c =>
      if c <? deadline t then None
      else if deadline t <? c then Some ErrTimeout
      else if latchFirst then None else Some ErrTimeout
  | None => Some ErrTimeout
  end.

End AsyncReader.

(** ** A consuming layer *)

Module Consumer.

Section Consume.

(** The error a layer answers a repeated [Consume] with. *)
Variable ErrAlreadyStarted : error.

(** Modelled from the spec: a consuming layer (the implementation of the
    async writer is not among the sources, only its test).  A layer
    remembers whether [Consume] was called and the inbound channel it
    was given, nil or not. *)
Record Layer : Type := {
  started : bool;
  inbound : option Stream.Chan
}.

Definition fresh : Layer := {| started := false; inbound := None |}.

(** Modelled from the spec: [Consume], for which the specification says
    that calling it twice on any layer is a contract violation and
    returns an error. *)
Definition Consume (ts : option Stream.Chan) (l : Layer) : option error * Layer :=
  if started l then (Some ErrAlreadyStarted, l)
  else (None, {| started := true; inbound := ts |}).

(** The answers to a sequence of calls on one layer. *)
Fixpoint ConsumeAll (tss : list (option Stream.Chan)) (l : Layer)
  : list (option error) :=
  match tss with
  | [] => []
  | ts :: rest => let (r, l') := Consume ts l in r :: ConsumeAll rest l'
  end.

End Consume.

End Consumer.

(** ** The specification's reading of the supervisor and of the loop *)

Module Spec.

Import Stream.

(** The shutdown calls made on the layers, without their budgets and
    answers. *)
Inductive Op : Type :=
| OpClose (l : Layer)
| OpStopConsuming (l : Layer)
| OpWait (l : Layer).

Fixpoint ops_of (h : History) : list Op :=
  match h with
  | [] => []
  | ECloseAsync l :: h' => OpClose l :: ops_of h'
  | EStopConsuming l :: h' => OpStopConsuming l :: ops_of h'
  | EWaitForClose l _ _ :: h' => OpWait l :: ops_of h'
  | _ :: h' => ops_of h'
  end.

(** Graceful shutdown in the specification's words: close the input and
    wait; stop consuming the buffer and wait; close the pipeline and wait;
    close the output and wait. *)
Definition graceful_order (t : StreamType) : list Op :=
  [OpClose Input; OpWait Input]
  ++ (if bufferLayer t then [OpStopConsuming Buffer; OpWait Buffer] else [])
  ++ (if pipelineLayer t then [OpClose Pipeline; OpWait Pipeline] else [])
  ++ [OpClose Output; OpWait Output].


(** The layers a configuration asks for, in stream order. *)
Definition layers_of (c : Config) : list Layer :=
  [Input]
  ++ (if String.eqb (Type_ (BufferConf c)) "none" then [] else [Buffer])
  ++ (match Processors (PipelineConf c) with [] => [] | _ :: _ => [Pipeline] end)
  ++ [Output].

(** Each layer but the first consumes the channel of the layer before
    it. *)
Fixpoint wiring (ls : list Layer) : list (Layer * Chan) :=
  match ls with
  | [] => []
  | producer :: rest =>
      match rest with
      | [] => []
      | consumer :: _ => (consumer, TransactionChan producer) :: wiring rest
      end
  end.

(** The [Consume] calls of a history, in order. *)
Fixpoint consumes_of (h : History) : list (Layer * Chan) :=
  match h with
  | [] => []
  | EConsume l c _ :: h' => (l, c) :: consumes_of h'
  | _ :: h' => consumes_of h'
  end.

(** The readiness body for a pair of connection flags. *)
Definition not_connected_lines (input output : bool) : string :=
  ((if input then "" else "input not connected" ++ newline)
   ++ (if output then "" else "output not connected" ++ newline))%string.

(** The classes of a [Read] result in the specification's words; a lost
    connection is handled before the shutdown check, shutdown before the
    rest. *)
Inductive Class : Type :=
| Produce
| LostConnection
| Terminate
| RetrySilently
| RetryLogged.

Definition classify (shutdown : bool) (msg : option AsyncReader.Batch)
    (err : option error) : Class :=
  match err with
  | Some ErrNotConnected => LostConnection
  | Some ErrTypeClosed => Terminate
  | Some ErrTimeout => if shutdown then Terminate else RetrySilently
  | Some (ErrOther _) => if shutdown then Terminate else RetryLogged
  | None =>
      if shutdown then Terminate
      else match msg with
           | Some _ => Produce
           | None => RetrySilently
           end
  end.

(** Whether the last word of the connector, among successful connects and
    lost connections, is a successful connect. *)
Fixpoint connect_stands (seen : bool) (tr : list AsyncReader.Obs) : bool :=
  match tr with
  | [] => seen
  | AsyncReader.OConnect None :: tr' => connect_stands true tr'
  | AsyncReader.ORead _ _ (Some ErrNotConnected) :: tr' => connect_stands false tr'
  | _ :: tr' => connect_stands seen tr'
  end.

(** The acknowledgement functions invoked so far, with their verdicts. *)
Fixpoint acks_of (tr : list AsyncReader.Obs) : list (AsyncReader.AsyncAckFn * option error) :=
  match tr with
  | [] => []
  | AsyncReader.OAck a res :: tr' => (a, res) :: acks_of tr'
  | _ :: tr' => acks_of tr'
  end.

(** The ack-waiters that left their wait on close-now. *)
Fixpoint abandons_of (tr : list AsyncReader.Obs) : nat :=
  match tr with
  | [] => 0%nat
  | AsyncReader.OAbandon _ :: tr' => S (abandons_of tr')
  | _ :: tr' => abandons_of tr'
  end.

(** The ack-waiters that have returned. *)
Definition finished (ws : list AsyncReader.Waiter) : nat :=
  List.length (filter AsyncReader.w_done ws).

(** The reading under which immediate shutdown still propagates every
    acknowledgement: once close-now is signalled, an ack-waiter that has
    returned has invoked its acknowledgement function. *)
Definition acks_despite_close_now (lib : AsyncReader.BackOffLib) : Prop :=
  forall r, AsyncReader.reachable lib r ->
    AsyncReader.closeNow (AsyncReader.shutSig r) = true ->
    forall n w, nth_error (AsyncReader.waiters r) n = Some w ->
      AsyncReader.w_done w = true ->
      exists res, In (AsyncReader.w_ackFn w, res) (acks_of (AsyncReader.trace r)).

End Spec.


(** ** Concrete streams and environments *)

Module Examples.

Import Stream.

Definition full_conf : Config :=
  {| InputConf := "generate";
     BufferConf := {| Type_ := "memory" |};
     PipelineConf := {| Processors := ["mapping"%string] |};
     OutputConf := "drop" |}.

Definition bare_conf : Config :=
  {| InputConf := "generate";
     BufferConf := {| Type_ := "none" |};
     PipelineConf := {| Processors := [] |};
     OutputConf := "drop" |}.

(** A stream with all four layers. *)
Definition full_stream : StreamType :=
  {| conf := full_conf; inputLayer := true; bufferLayer := true;
     pipelineLayer := true; outputLayer := true |}.

(** A stream with an input and an output only. *)
Definition bare_stream : StreamType :=
  {| conf := bare_conf; inputLayer := true; bufferLayer := false;
     pipelineLayer := false; outputLayer := true |}.

(** The time a history has taken: a wait that timed out took its whole
    budget, every other call a microsecond. *)
Fixpoint elapsed_of (h : History) : Z :=
  match h with
  | [] => 0
  | EWaitForClose _ d (Some ErrTimeout) :: h' => Z.max 0 d + elapsed_of h'
  | _ :: h' => 1000 + elapsed_of h'
  end.

(** Every layer is connected and closes as soon as asked. *)
Definition cooperative : Env :=
  {| construct := fun _ _ => None;
     consume := fun _ _ _ => None;
     is_connected := fun _ _ => true;
     wait_for_close := fun _ _ _ => None;
     clock := elapsed_of |}.

(** The pipeline never closes (a processor blocks forever) and the output
    is not connected. *)
Definition stalled : Env :=
  {| construct := fun _ _ => None;
     consume := fun _ _ _ => None;
     is_connected := fun _ l => negb (Layer_eqb l Output);
     wait_for_close := fun _ l _ => if Layer_eqb l Pipeline then Some ErrTimeout else None;
     clock := elapsed_of |}.

(** The buffer cannot be constructed; everything else answers nil. *)
Definition broken_buffer : Env :=
  {| construct := fun _ l =>
       if Layer_eqb l Buffer then Some (ErrOther "unknown buffer type") else None;
     consume := fun _ _ _ => None;
     is_connected := fun _ _ => true;
     wait_for_close := fun _ _ _ => None;
     clock := elapsed_of |}.

(** A backoff library without jitter: the wait is the current interval,
    which then grows by half up to the maximum. *)
Definition plain_backoff : AsyncReader.BackOffLib :=
  {| AsyncReader.NewExponentialBackOff :=
       {| AsyncReader.InitialInterval := 500 * Time.Millisecond;
          AsyncReader.MaxInterval := 60 * Time.Second;
          AsyncReader.MaxElapsedTime := 900 * Time.Second;
          AsyncReader.currentInterval := 500 * Time.Millisecond |};
     AsyncReader.nextInterval := fun b =>
       (AsyncReader.currentInterval b,
        Z.min (AsyncReader.MaxInterval b) (AsyncReader.currentInterval b * 3 / 2)) |}.

Definition foobar : AsyncReader.Batch := ["foo"%string; "bar"%string].

(** The reader connects, reads a batch and hands it downstream; then
    close-now is signalled before any reply, and the ack-waiter leaves. *)
Definition abandoned_ack : list AsyncReader.Input :=
  [AsyncReader.IConnect None;
   AsyncReader.IRead (Some foobar) 7%nat None;
   AsyncReader.ISent;
   AsyncReader.ICloseNow;
   AsyncReader.IAbandon 0].

(** The reader fails to connect once, connects, loses the connection on a
    read and connects again. *)
Definition reconnecting : list AsyncReader.Input :=
  [AsyncReader.IConnect (Some (ErrOther "refused"));
   AsyncReader.ITimer;
   AsyncReader.IConnect None;
   AsyncReader.IRead None 0%nat (Some ErrNotConnected);
   AsyncReader.IConnect None].

(** A reader that shuts down at leisure after one acknowledged batch. *)
Definition clean_shutdown : list AsyncReader.Input :=
  [AsyncReader.IConnect None;
   AsyncReader.IRead (Some foobar) 7%nat None;
   AsyncReader.ISent;
   AsyncReader.ICloseAsync;
   AsyncReader.IRead None 0%nat (Some ErrTimeout);
   AsyncReader.IReply 0 None None;
   AsyncReader.IAcksResolved;
   AsyncReader.IReaderClosed None].

Definition state_after (script : list AsyncReader.Input) : AsyncReader.Reader :=
  match AsyncReader.run plain_backoff (AsyncReader.NewAsyncReader plain_backoff) script with
  | Some r => r
  | None => AsyncReader.NewAsyncReader plain_backoff
  end.


(** The reader once connected, about to read. *)
Definition reading_reader : AsyncReader.Reader :=
  Eval vm_compute in state_after [AsyncReader.IConnect None].

(** The reader with one transaction downstream and its ack-waiter
    waiting. *)
Definition waiting_reader : AsyncReader.Reader :=
  Eval vm_compute in
    state_after [AsyncReader.IConnect None;
                 AsyncReader.IRead (Some foobar) 7%nat None;
                 AsyncReader.ISent].

(** The reader told to close at leisure while it offers a batch
    downstream. *)
Definition told_to_close : AsyncReader.Reader :=
  Eval vm_compute in
    state_after [AsyncReader.IConnect None;
                 AsyncReader.IRead (Some foobar) 7%nat None;
                 AsyncReader.ICloseAsync].

(** The batch is taken, the next read loses the connection and the
    reconnect succeeds. *)
Definition last_moves : list AsyncReader.Input :=
  [AsyncReader.ISent;
   AsyncReader.IRead None 0%nat (Some ErrNotConnected);
   AsyncReader.IConnect None].

Definition after_last_moves : AsyncReader.Reader :=
  Eval vm_compute in
    match AsyncReader.run plain_backoff told_to_close last_moves with
    | Some r => r
    | None => told_to_close
    end.

End Examples.

(** ** Further readings of the supervisor and of the reader *)

Module Shutdown.

Import Stream Spec.



(** The layer a call is made on, if it is made on one. *)
Definition event_layer (e : Event) : option Layer :=
  match e with
  | ENew l _ | EConsume l _ _ | EConnected l _ | ECloseAsync l
  | EStopConsuming l | EWaitForClose l _ _ => Some l
  | _ => None
  end.

(** Whether the stream holds the layer: the input and the output of a
    started stream are never nil. *)
Definition present (t : StreamType) (l : Layer) : bool :=
  match l with
  | Input | Output => true
  | Buffer => bufferLayer t
  | Pipeline => pipelineLayer t
  end.

Definition on_present (t : StreamType) (e : Event) : Prop :=
  match event_layer e with
  | Some l => present t l = true
  | None => True
  end.

(** The budgets of the waits of a history, in order. *)
Fixpoint budgets_of (h : History) : list Time.Duration :=
  match h with
  | [] => []
  | EWaitForClose _ d _ :: h' => d :: budgets_of h'
  | _ :: h' => budgets_of h'
  end.

(** A clock that never runs backwards. *)
Definition monotonic (env : Env) : Prop :=
  forall h e, clock env h <= clock env (h ++ [e]).

(** The constructor calls of a history, in order. *)
Fixpoint constructed_of (h : History) : list Layer :=
  match h with
  | [] => []
  | ENew l _ :: h' => l :: constructed_of h'
  | _ :: h' => constructed_of h'
  end.

(** The endpoints registered in a history. *)
Fixpoint endpoints_of (h : History) : list string :=
  match h with
  | [] => []
  | ERegisterEndpoint p :: h' => p :: endpoints_of h'
  | _ :: h' => endpoints_of h'
  end.

End Shutdown.

Module ReaderSpec.

Import AsyncReader.

(** The loop goroutine is between a successful connect and the end of the
    loop. *)
Definition reading (p : PC) : bool :=
  match p with
  | PRead | PReadBackoff _ | PSend _ _ => true
  | _ => false
  end.

(** The loop goroutine has left the loop and runs its deferred calls, or
    has finished them. *)
Definition leaving (p : PC) : bool :=
  match p with
  | PWaitAcks | PWaitReader | PClosed => true
  | _ => false
  end.

(** The batches handed downstream, in order. *)
Fixpoint sends_of (tr : list Obs) : list Batch :=
  match tr with
  | [] => []
  | OSend m :: tr' => m :: sends_of tr'
  | _ :: tr' => sends_of tr'
  end.

(** The batches [Read] returned with a nil error, in order. *)
Fixpoint reads_of (tr : list Obs) : list Batch :=
  match tr with
  | [] => []
  | ORead (Some m) _ None :: tr' => m :: reads_of tr'
  | _ :: tr' => reads_of tr'
  end.

(** How often the connector's [ConnectWithContext] returned nil, and how
    often its [Read] returned [ErrNotConnected]. *)
Fixpoint connects_of (tr : list Obs) : Z :=
  match tr with
  | [] => 0
  | OConnect None :: tr' => 1 + connects_of tr'
  | _ :: tr' => connects_of tr'
  end.

Fixpoint losses_of (tr : list Obs) : Z :=
  match tr with
  | [] => 0
  | ORead _ _ (Some ErrNotConnected) :: tr' => 1 + losses_of tr'
  | _ :: tr' => losses_of tr'
  end.

(** How often [ConnectWithContext] returned an error. *)
Fixpoint fails_of (tr : list Obs) : Z :=
  match tr with
  | [] => 0
  | OConnect (Some _) :: tr' => 1 + fails_of tr'
  | _ :: tr' => fails_of tr'
  end.

(** The messages of a list of batches. *)
Fixpoint messages (bs : list Batch) : Z :=
  match bs with
  | [] => 0
  | b :: bs' => Z.of_nat (List.length b) + messages bs'
  end.

(** [l] is [l'] with some elements left out. *)
Inductive sublist {A : Type} : list A -> list A -> Prop :=
| sublist_nil : sublist [] []
| sublist_skip x l l' : sublist l l' -> sublist l (x :: l')
| sublist_keep x l l' : sublist l l' -> sublist (x :: l) (x :: l').

(** The batch the loop is offering downstream, if it is offering one. *)
Definition offered (p : PC) : list Batch :=
  match p with
  | PSend m _ => [m]
  | _ => []
  end.

Definition is_closed (p : PC) : bool :=
  match p with
  | PClosed => true
  | _ => false
  end.

(** How often the transactions channel was closed. *)
Fixpoint closes_of (tr : list Obs) : nat :=
  match tr with
  | [] => 0%nat
  | OCloseTransactions :: tr' => S (closes_of tr')
  | _ :: tr' => closes_of tr'
  end.

(** The moves of the loop goroutine itself, as opposed to those of the
    ack-waiters and of the callers that signal shutdown. *)
Definition loop_move (i : Input) : bool :=
  match i with
  | IConnect _ | IRead _ _ _ | ITimer | IShutdown | ISent
  | IAcksResolved | IReaderClosed _ => true
  | IReply _ _ _ | IAbandon _ | ICloseAsync | ICloseNow => false
  end.

Fixpoint loop_moves (script : list Input) : nat :=
  match script with
  | [] => 0%nat
  | i :: script' => ((if loop_move i then 1 else 0) + loop_moves script')%nat
  end.

(** Under at-leisure shutdown, a bound on the moves the loop goroutine can
    still make before it leaves the loop. *)
Definition moves_left (p : PC) : nat :=
  match p with
  | PConnBackoff Initial _ => 4%nat
  | PConnect Initial => 3%nat
  | PReadBackoff _ | PSend _ _ => 3%nat
  | PRead => 2%nat
  | PConnBackoff (Reconnect _ _) _ => 2%nat
  | PConnect (Reconnect _ _) => 1%nat
  | PWaitAcks | PWaitReader | PClosed => 0%nat
  end.

(** The reading under which waiting at most a second always signals
    close-now at once: for every int64 timeout of at most one second the
    close-now timer of [WaitForClose] is armed with no delay. *)
Definition short_wait_closes_now : Prop :=
  forall d, Time.in64 d -> d <= Time.Second ->
    closeNowAfter (WaitForCloseTimers d) = 0.

End ReaderSpec.
(** ** Facts about durations *)

Module TimeFacts.

Lemma wrap64_id z : Time.in64 z -> Time.wrap64 z = z.
Proof.
  unfold Time.in64, Time.minDuration, Time.maxDuration, Time.wrap64.
  intros Hz. rewrite Z.mod_small by lia. lia.
Qed.

Lemma wrap64_in64 z : Time.in64 (Time.wrap64 z).
Proof.
  unfold Time.in64, Time.minDuration, Time.maxDuration, Time.wrap64.
  pose proof (Z.mod_pos_bound (z + 2 ^ 63) (2 ^ 64) ltac:(lia)). lia.
Qed.

Lemma sat64_in64 z : Time.in64 (Time.sat64 z).
Proof.
  unfold Time.in64, Time.sat64, Time.minDuration, Time.maxDuration. lia.
Qed.

(** A quarter of an int64 is an int64. *)
Lemma div4_exact T : Time.in64 T -> Time.div T 4 = Z.quot T 4.
Proof.
  intros HT. unfold Time.div. apply wrap64_id.
  unfold Time.in64, Time.minDuration, Time.maxDuration in *.
  pose proof (Z.quot_rem' T 4) as Hq.
  pose proof (Z.rem_bound_abs T 4 ltac:(lia)) as Hr. lia.
Qed.

(** Taking the quarter away never leaves the int64 range. *)
Lemma sub_quarter_exact T : Time.in64 T -> Time.sub T (Z.quot T 4) = T - Z.quot T 4.
Proof.
  intros HT. unfold Time.sub. apply wrap64_id.
  unfold Time.in64, Time.minDuration, Time.maxDuration in *.
  pose proof (Z.quot_rem' T 4) as Hq.
  pose proof (Z.rem_bound_abs T 4 ltac:(lia)) as Hr. lia.
Qed.

(** The graceful share is three quarters of the deadline, up to the
    rounding of the integer division. *)
Lemma three_quarters T : Z.abs (4 * (T - Z.quot T 4) - 3 * T) < 4.
Proof.
  pose proof (Z.quot_rem' T 4) as Hq.
  pose proof (Z.rem_bound_abs T 4 ltac:(lia)) as Hr. lia.
Qed.

Lemma sub_exact a b : Time.in64 (a - b) -> Time.sub a b = a - b.
Proof. apply wrap64_id. Qed.

End TimeFacts.

(** ** Properties of the supervisor *)

Module StreamFacts.

Import Stream Spec.

Ltac calls :=
  cbv beta iota zeta delta
    [StopGracefully StopUnordered StopOrdered orReturn bind ret waitRemaining
     CloseAsync StopConsuming emit WaitForClose Now Since
     bufferLayer pipelineLayer].

Ltac branch :=
  match goal with
  | |- context [match wait_for_close ?e ?h ?l ?d with _ => _ end] =>
      destruct (wait_for_close e h l d) eqn:?
  | |- context [if ?a <? ?b then _ else _] => destruct (Z.ltb_spec a b)
  end; calls.

Ltac pick_event H :=
  repeat (destruct H as [H | H]; [try discriminate H | ]); try contradiction H.

Ltac same_event H := inversion H; subst; clear H.

Ltac last_of :=
  match goal with
  | |- exists pre, ?l = pre ++ _ => exists (removelast l); reflexivity
  end.

(** Why a shutdown procedure returned the error it returned. *)
Ltac error_source :=
  intros ? Hr;
  first
    [ discriminate Hr
    | injection Hr as <-;
      first
        [ left; eexists; eexists;
          match goal with
          | |- exists pre, ?l = pre ++ _ => exists (removelast l); reflexivity
          end
        | right; eexists;
          match goal with
          | |- exists pre, ?l = pre ++ _ /\ _ =>
              exists (removelast l); split; [reflexivity | split; [assumption | reflexivity]]
          end ] ].

(** What a run of [StopGracefully] from history [h] with answer [r] and
    final history [h'] looks like. *)
Definition graceful_run (t : StreamType) (timeout : Time.Duration)
    (h : History) (out : option error * History) : Prop :=
  let (r, h') := out in
  exists new,
    h' = h ++ new
    /\ (exists rest, graceful_order t = ops_of new ++ rest /\ (r = None -> rest = []))
    /\ (exists tail, ops_of new = OpClose Input :: OpWait Input :: tail)
    /\ (forall l d res, In (EWaitForClose l d res) new ->
          (l = Input /\ d = timeout)
          \/ (l <> Input /\ 0 <= d
              /\ exists el, In (ESince el) new /\ d = Time.sub timeout el))
    /\ (forall el, In (ESince el) new -> Time.sub timeout el < 0 ->
          r = Some ErrTimeout /\ exists pre, new = pre ++ [ESince el])
    /\ (forall l d e, In (EWaitForClose l d (Some e)) new ->
          r = Some e /\ exists pre, new = pre ++ [EWaitForClose l d (Some e)])
    /\ (forall e, r = Some e ->
          (exists l d pre, new = pre ++ [EWaitForClose l d (Some e)])
          \/ (exists el pre,
                new = pre ++ [ESince el] /\ Time.sub timeout el < 0 /\ e = ErrTimeout)).

Lemma StopGracefully_run env t timeout h :
  graceful_run t timeout h (StopGracefully env t timeout h).
Proof.
  unfold graceful_run. destruct t as [c il [|] [|] ol]; calls.
  all: repeat branch.
  all: rewrite <- ?app_assoc in *; simpl in *; eexists; (split; [reflexivity|]).
  all: cbv [graceful_order bufferLayer pipelineLayer]; simpl.
  all: split; [eexists; split; [reflexivity | intros; (reflexivity || discriminate)]|].
  all: split; [eexists; reflexivity|].
  all: split;
    [intros ? ? ? Hin; pick_event Hin; same_event Hin;
     first [ left; split; reflexivity
           | right; split;
             [discriminate
             | split; [assumption | eexists; split; cycle 1; [reflexivity | simpl; tauto]]] ]
    |].
  all: split;
    [intros ? Hin Hlt; pick_event Hin; same_event Hin;
     first [ lia | split; [reflexivity | last_of] ]
    |].
  all: split;
    [intros ? ? ? Hin; pick_event Hin; same_event Hin; (split; [reflexivity | last_of])
    | error_source].
Qed.



(** C4: the readiness handler asks both layers whether they are connected;
    it answers 200 with body "OK" exactly when both say yes, and otherwise
    503 with one line for each side that is not connected; [IsReady] is the
    conjunction of the two answers. *)
Theorem ready_endpoint (env : Env) (h : History) :
  let inputConnected := is_connected env h Input in
  let outputConnected := is_connected env (h ++ [EConnected Input inputConnected]) Output in
  let w := fst (healthCheck env freshWriter h) in
  snd (healthCheck env freshWriter h)
  = h ++ [EConnected Input inputConnected; EConnected Output outputConnected]
  /\ ((status w = 200 /\ body w = "OK"%string)
      <-> (inputConnected = true /\ outputConnected = true))
  /\ ((inputConnected = false \/ outputConnected = false) ->
      status w = 503 /\ body w = not_connected_lines inputConnected outputConnected)
  /\ fst (IsReady env h) = inputConnected && outputConnected.
Proof.
  cbv zeta. unfold healthCheck, IsReady, Connected, bind, ret. cbn [fst snd].
  rewrite <- app_assoc. cbn [app].
  destruct (is_connected env h Input);
    destruct (is_connected env (h ++ [EConnected Input _]) Output).
  all: cbn.
  all: split; [reflexivity|]; split;
    [split; intros [H1 H2];
     first [split; reflexivity | discriminate H1 | discriminate H2
           | vm_compute in H1; discriminate H1]
    | split;
      [intros [H | H]; first [discriminate H | split; reflexivity]
      | reflexivity]].
Qed.

Ltac start_calls :=
  cbv beta iota zeta delta
    [New start bind ret emit NewLayer Consume set_layer is_nil fst snd negb
     conf inputLayer bufferLayer pipelineLayer outputLayer
     Type_ BufferConf Processors PipelineConf List.length Z.of_nat Z.ltb Z.compare].

Ltac in_history :=
  solve [cbn [In]; repeat (first [left; reflexivity | right])].

(** Why [New] returned the error it returned. *)
Ltac failed_call :=
  intros ? Hr;
  first
    [ discriminate Hr
    | injection Hr as <-;
      first [ left; eexists; last_of | right; eexists; eexists; last_of ] ].

(** C8: [New] always begins by constructing the input; it constructs the
    layers the configuration asks for, in stream order, and then wires
    them in the order input, buffer, pipeline, output, each [Consume] being
    given the transaction channel of the layer before it.  It returns an
    error only when a constructor or a [Consume] answers one, that call
    then being the last one made; when none does, it returns a stream.
    The stream it returns has a buffer layer exactly when the configured
    buffer type is not "none" and a pipeline layer exactly when the
    processor list is not empty, and all of its layers were wired, every
    [Consume] having returned [nil].  When [New] fails, the constructor and
    [Consume] calls made are an initial part of the full sequence. *)
Theorem New_wiring (env : Env) (c : Config) (h : History) :
  match New env c h with
  | (made, err, h') =>
      exists new,
        h' = h ++ new
        /\ (exists rest, wiring (layers_of c) = consumes_of new ++ rest
                         /\ (err = None -> rest = []))
        /\ (exists rest, layers_of c = Shutdown.constructed_of new ++ rest
                         /\ (err = None -> rest = []))
        /\ (exists r0 tail, new = ENew Input r0 :: tail)
        /\ (err = None <-> made <> None)
        /\ (forall e, err = Some e ->
              (exists l pre, new = pre ++ [ENew l (Some e)])
              \/ (exists l ch pre, new = pre ++ [EConsume l ch (Some e)]))
        /\ ((forall l e, ~ In (ENew l (Some e)) new) ->
            (forall l ch e, ~ In (EConsume l ch (Some e)) new) ->
            err = None)
        /\ match made with
           | None => True
           | Some t =>
               conf t = c
               /\ inputLayer t = true /\ outputLayer t = true
               /\ (bufferLayer t = false <-> Type_ (BufferConf c) = "none"%string)
               /\ (pipelineLayer t = false <-> Processors (PipelineConf c) = [])
               /\ forall l ch r, In (EConsume l ch r) new -> r = None
           end
  end.
Proof.
  destruct c as [ic [bt] [procs] oc].
  unfold layers_of. start_calls.
  destruct (String.eqb_spec bt "none") as [Hb | Hb];
    destruct procs as [| p ps]; start_calls.
  all: repeat
         (match goal with
          | |- context [match construct ?e ?hh ?l with _ => _ end] =>
              destruct (construct e hh l) eqn:?
          | |- context [match consume ?e ?hh ?l ?ch with _ => _ end] =>
              destruct (consume e hh l ch) eqn:?
          end; start_calls).
  all: rewrite <- ?app_assoc; cbn [app]; eexists; (split; [reflexivity|]).
  all: cbn [consumes_of Shutdown.constructed_of wiring app].
  all: split; [eexists; split; [reflexivity | intros; (reflexivity || discriminate)] | ].
  all: split; [eexists; split; [reflexivity | intros; (reflexivity || discriminate)] | ].
  all: split; [eexists; eexists; reflexivity | ].
  all: split; [split; intros; congruence | ].
  all: split; [failed_call | ].
  all: split;
    [intros Hnew Hconsume;
     first [ reflexivity
           | exfalso; eapply Hnew; in_history
           | exfalso; eapply Hconsume; in_history ]
    | ].
  all: try exact I.
  all: split; [reflexivity | split; [reflexivity | split; [reflexivity | ]]].
  all: split; [split; intros; congruence | ].
  all: split; [split; intros; congruence | ].
  all: intros ? ? ? Hin; pick_event Hin; same_event Hin; reflexivity.
Qed.

(** With a buffer and a processor configured and collaborators that
    answer nil, [New] returns a stream with all four layers, wired
    input to buffer to pipeline to output. *)
Lemma New_wiring_witness :
  exists t h',
    New Examples.cooperative Examples.full_conf [] = (Some t, None, h')
    /\ bufferLayer t = true /\ pipelineLayer t = true
    /\ consumes_of h'
       = [(Buffer, TransactionChan Input); (Pipeline, TransactionChan Buffer);
          (Output, TransactionChan Pipeline)].
Proof.
  pose proof (New_wiring Examples.cooperative Examples.full_conf []) as Hnew.
  destruct (New Examples.cooperative Examples.full_conf []) as [[made err] h'] eqn:Hrun.
  assert (Herr : err = None).
  { change err with (snd (fst (made, err, h'))). rewrite <- Hrun.
    vm_compute. reflexivity. }
  destruct Hnew as (new & Hh & (rest & Hwired & Hall) & _ & _ & Hmade & _ & _ & Hstream).
  destruct made as [t |]; [| now destruct (proj1 Hmade Herr)].
  destruct Hstream as (_ & _ & _ & Hbuffer & Hpipeline & _).
  exists t, h'. subst err. split; [reflexivity|].
  split; [destruct (bufferLayer t); [reflexivity | discriminate (proj1 Hbuffer eq_refl)]|].
  split; [destruct (pipelineLayer t); [reflexivity | discriminate (proj1 Hpipeline eq_refl)]|].
  rewrite Hh. cbn [app]. rewrite (Hall eq_refl), app_nil_r in Hwired.
  now rewrite <- Hwired.
Defined.

(** The notes [Stop] leaves between and after its tiers touch no layer. *)
Definition is_note (e : Event) : Prop :=
  match e with
  | ELog _ _ | ELogErr _ _ | EStackDump => True
  | _ => False
  end.

(** C1: for a total deadline [T], [Stop] first runs the graceful shutdown
    with budget [T - T/4], three quarters of [T] up to the rounding of
    the division, and returns [nil] with nothing else done if that
    succeeds; on any error of the graceful attempt, timeout or not, it
    leaves a note and runs the unordered shutdown with budget [T/4],
    returning [nil] if that succeeds and the unordered attempt's error
    otherwise. *)
Theorem Stop_tiers (env : Env) (t : StreamType) (T : Time.Duration) (h : History) :
  Time.in64 T ->
  let tOutUnordered := Z.quot T 4 in
  let tOutGraceful := T - Z.quot T 4 in
  Z.abs (4 * tOutGraceful - 3 * T) < 4
  /\ tOutGraceful + tOutUnordered = T
  /\ match StopGracefully env t tOutGraceful h with
     | (None, h1) =>
         Stop env t T h = (None, h1)
         /\ exists new, h1 = h ++ new /\ ops_of new = graceful_order t
     | (Some e1, h1) =>
         exists note,
           (note = ELog LInfo msgDrain \/ note = ELogErr msgShutdownErr e1)
           /\ match StopUnordered env t tOutUnordered (h1 ++ [note]) with
              | (None, h2) => Stop env t T h = (None, h2)
              | (Some e2, h2) =>
                  exists notes,
                    Stop env t T h = (Some e2, h2 ++ notes) /\ Forall is_note notes
              end
     end.
Proof.
  intros HT. cbv zeta.
  split; [apply TimeFacts.three_quarters|].
  split; [lia|].
  pose proof (StopGracefully_run env t (T - Z.quot T 4) h) as Hrun.
  unfold Stop, bind.
  rewrite (TimeFacts.div4_exact T HT), (TimeFacts.sub_quarter_exact T HT).
  destruct (StopGracefully env t (T - Z.quot T 4) h) as [[e1|] h1].
  - destruct (error_eqb e1 ErrTimeout); unfold emit.
    + exists (ELog LInfo msgDrain). split; [now left|].
      destruct (StopUnordered env t (Z.quot T 4) (h1 ++ [ELog LInfo msgDrain]))
        as [[e2|] h2]; [|reflexivity].
      destruct (error_eqb e2 ErrTimeout); cbn.
      * exists [ELog LError msgFailedStop; EStackDump].
        rewrite <- app_assoc. split; [reflexivity | repeat constructor].
      * exists [ELogErr msgShutdownErr e2]. split; [reflexivity | repeat constructor].
    + exists (ELogErr msgShutdownErr e1). split; [now right|].
      destruct (StopUnordered env t (Z.quot T 4) (h1 ++ [ELogErr msgShutdownErr e1]))
        as [[e2|] h2]; [|reflexivity].
      destruct (error_eqb e2 ErrTimeout); cbn.
      * exists [ELog LError msgFailedStop; EStackDump].
        rewrite <- app_assoc. split; [reflexivity | repeat constructor].
      * exists [ELogErr msgShutdownErr e2]. split; [reflexivity | repeat constructor].
  - split; [reflexivity|].
    destruct Hrun as (new & Hnew & (rest & Hrest & Hdone) & _).
    exists new. split; [exact Hnew|].
    rewrite Hrest, (Hdone eq_refl). now rewrite app_nil_r.
Qed.


Ltac evaluate_in f H :=
  match type of H with
  | context [f ?e ?t ?d ?h] =>
      let v := eval vm_compute in (f e t d h) in
      replace (f e t d h) with v in H by (vm_compute; reflexivity)
  end.

(** The scenario of a processor that blocks forever: [Stop] with four
    seconds tries the graceful shutdown for three, the unordered one for
    one, and returns [ErrTimeout]. *)
Lemma Stop_tiers_witness :
  Time.in64 (4 * Time.Second)
  /\ exists h2 notes,
       Stop Examples.stalled Examples.full_stream (4 * Time.Second) []
       = (Some ErrTimeout, h2 ++ notes)
       /\ ops_of h2
          = [OpClose Input; OpWait Input; OpStopConsuming Buffer; OpWait Buffer;
             OpClose Pipeline; OpWait Pipeline]
            ++ [OpClose Input; OpClose Buffer; OpClose Pipeline; OpClose Output;
                OpWait Input; OpWait Buffer; OpWait Pipeline].
Proof.
  assert (H64 : Time.in64 (4 * Time.Second)) by (vm_compute; split; discriminate).
  split; [exact H64|].
  pose proof (Stop_tiers Examples.stalled Examples.full_stream (4 * Time.Second) [] H64)
    as (_ & _ & Htiers).
  evaluate_in StopGracefully Htiers.
  destruct Htiers as (note & [Hnote | Hnote] & Htiers); subst note;
    evaluate_in StopUnordered Htiers;
    destruct Htiers as (notes & Hstop & _);
    eexists; exists notes; (split; [exact Hstop | reflexivity]).
Defined.

End StreamFacts.

(** ** Properties of the asynchronous reader *)

Module ReaderFacts.

Import AsyncReader Spec.

(** Projections of the state after the loop's bookkeeping. *)
Ltac fields :=
  unfold resetBackoff, leave in *;
  cbn [connected connBackoff shutSig stats pc waiters trace
       set_connected set_backoff set_shutSig incr goto set_waiters observe
       resetBackoff leave
       atLeisure closeNow hasClosed CloseAtLeisure CloseNow ShutdownComplete
       ShouldCloseAtLeisure
       input_received input_connection_up input_connection_failed
       input_connection_lost Incr
       InitialInterval MaxInterval MaxElapsedTime currentInterval Reset] in *.

Lemma backoffTick_unfold lib k r :
  backoffTick lib k r
  = goto (k (fst (NextBackOff lib (connBackoff r))))
      (observe (OSleep (fst (NextBackOff lib (connBackoff r))))
         (set_backoff (snd (NextBackOff lib (connBackoff r))) r)).
Proof. unfold backoffTick. now destruct (NextBackOff lib (connBackoff r)). Qed.


(** Induction over the moves that lead to a state. *)
Lemma run_invariant lib (P : Reader -> Prop) :
  (forall r i r', P r -> step lib r i = Some r' -> P r') ->
  forall script r r', P r -> run lib r script = Some r' -> P r'.
Proof.
  intros Hstep script. induction script as [| i script IH]; intros r r' Hr Hrun.
  - cbn in Hrun. now injection Hrun as <-.
  - cbn in Hrun. destruct (step lib r i) as [r1 |] eqn:H1; [|discriminate].
    eapply IH; [|exact Hrun]. eapply Hstep; eauto.
Qed.

Lemma reachable_invariant lib (P : Reader -> Prop) :
  P (NewAsyncReader lib) ->
  (forall r i r', P r -> step lib r i = Some r' -> P r') ->
  forall r, reachable lib r -> P r.
Proof.
  intros H0 Hstep r [script Hrun]. eapply run_invariant; eauto.
Qed.

Lemma reachable_step lib r i r' :
  reachable lib r -> step lib r i = Some r' -> reachable lib r'.
Proof.
  intros [script Hrun] Hstep. exists (script ++ [i]).
  revert Hrun. generalize (NewAsyncReader lib) as r0. 
  induction script as [| j script IH]; intros r0 Hrun; cbn in *.
  - injection Hrun as ->. now rewrite Hstep.
  - destruct (step lib r0 j); [eauto | discriminate].
Qed.

(** Every way a move can go, with the new state spelled out. *)
Ltac moves H :=
  unfold step, afterRead, ShouldCloseAtLeisure in H;
  cbv zeta in H;
  repeat match type of H with
         | context [match ?x with _ => _ end] => destruct x eqn:?
         end;
  try discriminate H; injection H as <-;
  rewrite ?backoffTick_unfold in *; fields.

Lemma connect_stands_app tr tr' seen :
  connect_stands seen (tr ++ tr') = connect_stands (connect_stands seen tr) tr'.
Proof.
  revert seen. induction tr as [| o tr IH]; intros seen; [reflexivity|].
  destruct o as [[e |] | msg aFn [[| | | text] |] | | | | | | | | | | | | | ]; cbn; apply IH.
Qed.

(** The connected flag is 0 or 1; it is 1 only while the connector's last
    word is a successful connect; it is 0 once the reader has closed. *)
Definition connected_inv (r : Reader) : Prop :=
  (connected r = 0 \/ connected r = 1)
  /\ (connected r = 1 -> connect_stands false (trace r) = true)
  /\ (pc r = PClosed -> connected r = 0).

Lemma connected_inv_step lib r i r' :
  connected_inv r -> step lib r i = Some r' -> connected_inv r'.
Proof.
  intros (H01 & Hlive & Hclosed) Hstep. unfold connected_inv.
  destruct i; moves Hstep.
  all: rewrite ?connect_stands_app; cbn [connect_stands].
  all: repeat split; try (now left); try (now right); try discriminate;
    try assumption; try reflexivity; try congruence; try lia.
  all: intros Hone; specialize (Hlive Hone);
    repeat match goal with
           | e : error |- _ => destruct e
           | e : option error |- _ => destruct e
           end;
    cbn in *; congruence.
Qed.

(** C3: how the loop classifies the result of a [Read].  A nil error with
    a batch resets the backoff, counts the messages and offers a
    transaction, which once taken downstream gets its ack-waiter;
    [ErrNotConnected] counts a lost connection, clears the connected flag
    and goes back to connecting; [ErrTypeClosed], or an at-leisure
    shutdown signal with any other result, ends the loop; [ErrTimeout] or
    a nil batch with a nil error sleeps one backoff tick and reads again,
    logging nothing; any other error is logged, then the loop sleeps one
    backoff tick and reads again. *)
Theorem Read_classified (lib : BackOffLib) (r : Reader)
    (msg : option Batch) (aFn : AsyncAckFn) (err : option error) :
  pc r = PRead ->
  exists r',
    step lib r (IRead msg aFn err) = Some r'
    /\ let tick := fst (NextBackOff lib (connBackoff r)) in
       match classify (atLeisure (shutSig r)) msg err with
       | Produce =>
           exists m,
             msg = Some m
             /\ pc r' = PSend m aFn
             /\ trace r'
                = trace r ++ [ORead msg aFn err;
                              OReset (InitialInterval (connBackoff r));
                              OLogTrace (Z.of_nat (List.length m))]
             /\ input_received (stats r')
                = input_received (stats r) + Z.of_nat (List.length m)
             /\ exists r'',
                  step lib r' ISent = Some r''
                  /\ pc r'' = PRead
                  /\ trace r''
                     = trace r' ++ [OSend m; OSpawnWaiter (List.length (waiters r))]
                  /\ waiters r''
                     = waiters r ++ [{| w_msg := m; w_ackFn := aFn; w_done := false |}]
       | LostConnection =>
           Connected r' = false
           /\ input_connection_lost (stats r') = input_connection_lost (stats r) + 1
           /\ pc r' = PConnect (Reconnect msg aFn)
           /\ trace r' = trace r ++ [ORead msg aFn err]
       | Terminate =>
           pc r' = PWaitAcks
           /\ trace r' = trace r ++ [ORead msg aFn err; OLogDebug msgWaitingAcks]
       | RetrySilently =>
           pc r' = PReadBackoff tick
           /\ trace r' = trace r ++ [ORead msg aFn err; OSleep tick]
           /\ exists r'', step lib r' ITimer = Some r'' /\ pc r'' = PRead
                          /\ trace r'' = trace r'
       | RetryLogged =>
           exists e,
             err = Some e
             /\ pc r' = PReadBackoff tick
             /\ trace r'
                = trace r ++ [ORead msg aFn err; OLogError msgFailedRead e; OSleep tick]
             /\ exists r'', step lib r' ITimer = Some r'' /\ pc r'' = PRead
                            /\ trace r'' = trace r'
       end.
Proof.
  intros Hpc. unfold step, afterRead, ShouldCloseAtLeisure, Connected.
  rewrite Hpc. fields.
  destruct (atLeisure (shutSig r)) eqn:Hleisure;
    destruct err as [[| | | text] |]; try destruct msg as [m |];
    cbn [err_is error_eqb classify orb negb andb];
    rewrite ?backoffTick_unfold;
    (eexists; split; [reflexivity|]); fields; rewrite <- ?app_assoc; cbn [app].
  all: try (exists (ErrOther text)).
  all: try (exists m).
  all: repeat (split; [reflexivity|]); try reflexivity.
  all: unfold step; fields; (eexists; split; [reflexivity|]); fields;
    rewrite <- ?app_assoc; repeat split.
Qed.

(** The connected reader reads the batch "foo", "bar" and offers it
    downstream. *)
Lemma Read_classified_witness :
  pc Examples.reading_reader = PRead
  /\ exists r',
       step Examples.plain_backoff Examples.reading_reader
         (IRead (Some Examples.foobar) 7%nat None) = Some r'
       /\ pc r' = PSend Examples.foobar 7%nat
       /\ input_received (stats r') = 2.
Proof.
  split; [reflexivity|].
  destruct (Read_classified Examples.plain_backoff Examples.reading_reader
              (Some Examples.foobar) 7%nat None eq_refl)
    as (r' & Hstep & Hclass).
  exists r'. split; [exact Hstep|].
  cbn in Hclass. destruct Hclass as (m & Hm & Hpc & _ & Hcount & _).
  injection Hm as <-. split; [exact Hpc | exact Hcount].
Defined.

Lemma connected_inv_reachable lib r : reachable lib r -> connected_inv r.
Proof.
  apply reachable_invariant.
  - unfold connected_inv, NewAsyncReader. fields.
    repeat split; try (now left); discriminate.
  - intros. eapply connected_inv_step; eauto.
Qed.

(** C5: in every state the reader can be in, [Connected] is true only if
    the connector's last word, among successful connects and lost
    connections, is a successful connect.  The flag goes from unset to set
    only by the move in which [ConnectWithContext] returns nil; a [Read]
    that returns [ErrNotConnected] leaves it cleared; and it is cleared
    once the reader has shut down. *)
Theorem Connected_since_connect (lib : BackOffLib) (r : Reader) :
  reachable lib r ->
  (Connected r = true -> connect_stands false (trace r) = true)
  /\ (pc r = PClosed -> Connected r = false)
  /\ forall i r', step lib r i = Some r' ->
       (Connected r = false -> Connected r' = true -> i = IConnect None)
       /\ (forall msg aFn, i = IRead msg aFn (Some ErrNotConnected) ->
             Connected r' = false)
       /\ (pc r' = PClosed -> Connected r' = false).
Proof.
  intros Hreach.
  destruct (connected_inv_reachable lib r Hreach) as (H01 & Hlive & Hclosed).
  unfold Connected. split; [|split].
  - intros H1. apply Hlive. lia.
  - intros Hpc. rewrite (Hclosed Hpc). reflexivity.
  - intros i r' Hstep.
    destruct (connected_inv_reachable lib r' (reachable_step lib r i r' Hreach Hstep))
      as (_ & _ & Hclosed').
    split; [|split].
    + intros H0 H1. destruct i; moves Hstep; try congruence; discriminate H1.
    + intros msg aFn ->. moves Hstep; try reflexivity; discriminate.
    + intros Hpc. rewrite (Hclosed' Hpc). reflexivity.
Qed.

Lemma reading_reader_reachable :
  reachable Examples.plain_backoff Examples.reading_reader.
Proof. exists [IConnect None]. vm_compute. reflexivity. Defined.


(** The connected reader reports connected, and its connector's last word
    is a successful connect. *)
Lemma Connected_since_connect_witness :
  reachable Examples.plain_backoff Examples.reading_reader
  /\ Connected Examples.reading_reader = true
  /\ connect_stands false (trace Examples.reading_reader) = true.
Proof.
  split; [exact reading_reader_reachable|]. split; [reflexivity|].
  exact (proj1 (Connected_since_connect Examples.plain_backoff Examples.reading_reader
                  reading_reader_reachable) eq_refl).
Defined.









Lemma acks_of_app tr tr' : acks_of (tr ++ tr') = acks_of tr ++ acks_of tr'.
Proof.
  induction tr as [| o tr IH]; [reflexivity|].
  destruct o; cbn; rewrite ?IH; reflexivity.
Qed.

Lemma abandons_of_app tr tr' :
  abandons_of (tr ++ tr') = (abandons_of tr + abandons_of tr')%nat.
Proof.
  induction tr as [| o tr IH]; [reflexivity|].
  destruct o; cbn; rewrite ?IH; reflexivity.
Qed.

Lemma finished_app ws ws' : finished (ws ++ ws') = (finished ws + finished ws')%nat.
Proof. unfold finished. now rewrite filter_app, length_app. Qed.

Lemma finished_finish ws n w :
  nth_error ws n = Some w -> w_done w = false ->
  finished (finish n ws) = S (finished ws).
Proof.
  unfold finished. revert n. induction ws as [| v ws IH]; intros n Hn Hw.
  - destruct n; discriminate.
  - destruct n as [| n]; cbn in *.
    + injection Hn as ->. now rewrite Hw.
    + destruct (w_done v); cbn; now rewrite (IH n Hn Hw).
Qed.

(** Every ack-waiter that has returned either invoked its acknowledgement
    function or left on close-now, and none left before close-now. *)
Definition acks_inv (r : Reader) : Prop :=
  (List.length (acks_of (trace r)) + abandons_of (trace r))%nat = finished (waiters r)
  /\ (closeNow (shutSig r) = false -> abandons_of (trace r) = 0%nat).

Lemma acks_inv_reachable lib r : reachable lib r -> acks_inv r.
Proof.
  apply reachable_invariant.
  - unfold acks_inv, NewAsyncReader. fields. split; reflexivity.
  - intros r0 i r' (Hcount & Hnone) Hstep. unfold acks_inv.
    destruct i; moves Hstep.
    all: rewrite ?acks_of_app, ?abandons_of_app, ?length_app, ?finished_app;
      cbn [acks_of abandons_of List.length app finished filter w_done].
    all: repeat match goal with
                | H : _ || _ = false |- _ =>
                    apply orb_false_iff in H; destruct H as [? H];
                    try apply negb_false_iff in H
                end.
    all: try (erewrite finished_finish by eassumption).
    all: split;
      [lia | first [discriminate | congruence | intros Hc; specialize (Hnone Hc); lia]].
Qed.

(** C7, as the code has it: an ack-waiter that is still waiting can always
    take a reply, and then invokes the acknowledgement function it was
    spawned with, once, with the verdict received; it can leave without a
    reply only after close-now is signalled, and then it returns without
    invoking the acknowledgement function.  So before close-now, at-leisure
    shutdown or not, every ack-waiter that has returned has propagated its
    acknowledgement, and afterwards the acknowledgements propagated and the
    waits abandoned add up to the ack-waiters that have returned. *)
Theorem ack_waiter_close_now (lib : BackOffLib) (r : Reader) :
  reachable lib r ->
  (forall n w, nth_error (waiters r) n = Some w -> w_done w = false ->
     (forall res ackErr,
        exists r',
          step lib r (IReply n res ackErr) = Some r'
          /\ acks_of (trace r') = acks_of (trace r) ++ [(w_ackFn w, res)]
          /\ finished (waiters r') = S (finished (waiters r)))
     /\ (closeNow (shutSig r) = false -> step lib r (IAbandon n) = None)
     /\ (closeNow (shutSig r) = true ->
         exists r',
           step lib r (IAbandon n) = Some r'
           /\ acks_of (trace r') = acks_of (trace r)
           /\ finished (waiters r') = S (finished (waiters r))))
  /\ (closeNow (shutSig r) = false ->
      List.length (acks_of (trace r)) = finished (waiters r))
  /\ (List.length (acks_of (trace r)) + abandons_of (trace r))%nat
     = finished (waiters r).
Proof.
  intros Hreach. destruct (acks_inv_reachable lib r Hreach) as (Hcount & Hnone).
  split; [|split].
  - intros n w Hn Hw. split; [|split].
    + intros res ackErr. unfold step. rewrite Hn, Hw. cbv zeta.
      destruct ackErr; eexists; (split; [reflexivity|]); fields;
        rewrite !acks_of_app; cbn [acks_of]; rewrite ?app_nil_r;
        (split; [reflexivity | apply (finished_finish _ _ w); assumption]).
    + intros Hc. unfold step. now rewrite Hn, Hw, Hc.
    + intros Hc. unfold step. rewrite Hn, Hw, Hc. cbn [orb negb].
      eexists. split; [reflexivity|]. fields. rewrite acks_of_app. cbn [acks_of].
      rewrite app_nil_r. split; [reflexivity | apply (finished_finish _ _ w); assumption].
  - intros Hc. specialize (Hnone Hc). lia.
  - exact Hcount.
Qed.

Lemma waiting_reader_reachable :
  reachable Examples.plain_backoff Examples.waiting_reader.
Proof.
  exists [IConnect None; IRead (Some Examples.foobar) 7%nat None; ISent].
  vm_compute. reflexivity.
Defined.

Lemma ack_waiter_close_now_witness :
  reachable Examples.plain_backoff Examples.waiting_reader
  /\ step Examples.plain_backoff Examples.waiting_reader (IAbandon 0) = None
  /\ List.length (acks_of (trace Examples.waiting_reader))
     = finished (waiters Examples.waiting_reader).
Proof.
  pose proof (ack_waiter_close_now Examples.plain_backoff Examples.waiting_reader
                waiting_reader_reachable) as (Hwaiter & Hbefore & _).
  split; [exact waiting_reader_reachable|]. split.
  - exact (proj1 (proj2 (Hwaiter 0%nat
                           {| w_msg := Examples.foobar; w_ackFn := 7%nat; w_done := false |}
                           eq_refl eq_refl)) eq_refl).
  - exact (Hbefore eq_refl).
Defined.

(** C7, as claimed, fails: the reader hands a batch downstream, close-now
    is signalled before any reply arrives, and the ack-waiter returns with
    the acknowledgement function never invoked. *)
Lemma close_now_abandons_ack : ~ acks_despite_close_now Examples.plain_backoff.
Proof.
  intros Hclaim.
  assert (Hreach : reachable Examples.plain_backoff
                     (Examples.state_after Examples.abandoned_ack))
    by (exists Examples.abandoned_ack; vm_compute; reflexivity).
  assert (Hnow : closeNow (shutSig (Examples.state_after Examples.abandoned_ack)) = true)
    by (vm_compute; reflexivity).
  assert (Hwaiter : nth_error (waiters (Examples.state_after Examples.abandoned_ack)) 0
                    = Some {| w_msg := Examples.foobar; w_ackFn := 7%nat; w_done := true |})
    by (vm_compute; reflexivity).
  destruct (Hclaim _ Hreach Hnow 0%nat _ Hwaiter eq_refl) as [res Hin].
  vm_compute in Hin. exact Hin.
Qed.

Lemma sub_wraps_up a b :
  Time.minDuration - 2 ^ 63 <= a - b < Time.minDuration ->
  Time.sub a b = a - b + 2 ^ 64.
Proof.
  unfold Time.sub, Time.wrap64, Time.minDuration. intros Hab.
  rewrite <- (Z.mod_add (a - b + 2 ^ 63) 1 (2 ^ 64)) by lia.
  rewrite Z.mod_small by lia. lia.
Qed.

(** C10, as the code has it: for every int64 timeout, [WaitForClose] arms
    a timer of the timeout less one second, in int64 arithmetic, for the
    close-now signal and one of the timeout for its own return; it returns
    nil when the reader has closed before the deadline and [ErrTimeout]
    when it closes later or never.  When a second can be taken from the
    timeout without leaving the int64 range, which every timeout that is
    not negative allows, a timeout of at most one second signals close-now
    at once and a longer one a second before the deadline.  For the
    timeouts below that range the subtraction wraps around and close-now
    is armed a positive delay ahead. *)
Theorem WaitForClose_grace (timeout : Time.Duration) :
  Time.in64 timeout ->
  let timers := WaitForCloseTimers timeout in
  closeNowAfter timers = Z.max 0 (Time.sub timeout Time.Second)
  /\ deadline timers = Z.max 0 timeout
  /\ (forall c pick, c < deadline timers -> WaitForClose timeout (Some c) pick = None)
  /\ (forall c pick, deadline timers < c ->
        WaitForClose timeout (Some c) pick = Some ErrTimeout)
  /\ (forall pick, WaitForClose timeout None pick = Some ErrTimeout)
  /\ (Time.minDuration + Time.Second <= timeout ->
      closeNowAfter timers = Z.max 0 (timeout - Time.Second)
      /\ (timeout <= Time.Second -> closeNowAfter timers = 0)
      /\ (Time.Second < timeout ->
          closeNowAfter timers = deadline timers - Time.Second))
  /\ (timeout < Time.minDuration + Time.Second ->
      closeNowAfter timers = timeout - Time.Second + 2 ^ 64
      /\ 0 < closeNowAfter timers).
Proof.
  intros Hrange. cbv zeta.
  unfold WaitForClose, WaitForCloseTimers, Time.After.
  cbn [closeNowAfter deadline].
  split; [reflexivity|]. split; [reflexivity|].
  split; [|split; [|split; [|split]]].
  - intros c pick Hc. destruct (Z.ltb_spec c (Z.max 0 timeout)); [reflexivity | lia].
  - intros c pick Hc.
    destruct (Z.ltb_spec c (Z.max 0 timeout)); [lia|].
    destruct (Z.ltb_spec (Z.max 0 timeout) c); [reflexivity | lia].
  - reflexivity.
  - intros Hlow.
    assert (Hsub : Time.sub timeout Time.Second = timeout - Time.Second).
    { apply TimeFacts.sub_exact. unfold Time.in64, Time.Second in *.
      unfold Time.minDuration, Time.maxDuration in *. lia. }
    rewrite Hsub. unfold Time.Second in *. repeat split; lia.
  - intros Hlow.
    assert (Hsub : Time.sub timeout Time.Second = timeout - Time.Second + 2 ^ 64).
    { apply sub_wraps_up. unfold Time.in64, Time.Second in *.
      unfold Time.minDuration, Time.maxDuration in *. lia. }
    rewrite Hsub. unfold Time.in64, Time.Second, Time.minDuration in *. lia.
Qed.

(** Waiting one second for a reader that takes two to close: close-now is
    signalled at once and the wait times out. *)
Lemma WaitForClose_grace_witness :
  Time.in64 Time.Second
  /\ closeNowAfter (WaitForCloseTimers Time.Second) = 0
  /\ WaitForClose Time.Second (Some (2 * Time.Second)) true = Some ErrTimeout.
Proof.
  assert (Hrange : Time.in64 Time.Second) by (vm_compute; split; discriminate).
  split; [exact Hrange|].
  destruct (WaitForClose_grace Time.Second Hrange)
    as (_ & _ & _ & Hlate & _ & Hnow & _).
  assert (Hlow : Time.minDuration + Time.Second <= Time.Second)
    by (vm_compute; discriminate).
  split.
  - exact (proj1 (proj2 (Hnow Hlow)) (Z.le_refl Time.Second)).
  - apply Hlate. vm_compute. reflexivity.
Defined.

(** Below that range the subtraction wraps around and the close-now timer
    is armed some 292 years ahead. *)
Lemma WaitForClose_wraps :
  closeNowAfter (WaitForCloseTimers Time.minDuration) = 2 ^ 63 - Time.Second.
Proof. vm_compute. reflexivity. Qed.

(** C10, as claimed, fails: the smallest int64 is a timeout of at most one
    second, yet with it the close-now timer is not armed at delay 0, the
    subtraction of a second having wrapped around. *)
Lemma short_wait_wraps : ~ ReaderSpec.short_wait_closes_now.
Proof.
  intros Hclaim.
  assert (Hmin : Time.in64 Time.minDuration) by (vm_compute; split; discriminate).
  assert (Hshort : Time.minDuration <= Time.Second) by (vm_compute; discriminate).
  specialize (Hclaim Time.minDuration Hmin Hshort).
  vm_compute in Hclaim. discriminate Hclaim.
Qed.

End ReaderFacts.

(** ** Properties of a consuming layer *)

Module ConsumerFacts.

Import Consumer.

Lemma ConsumeAll_started E tss l :
  started l = true -> ConsumeAll E tss l = repeat (Some E) (List.length tss).
Proof.
  revert l. induction tss as [| ts tss IH]; intros l Hl; [reflexivity|].
  cbn. unfold Consume. rewrite Hl. cbn. now rewrite (IH l Hl).
Qed.

(** C9: on a fresh layer the first [Consume] returns nil, the second one
    returns an error, and so does every call after it, whatever the
    channels passed. *)
Theorem Consume_twice (ErrAlreadyStarted : error)
    (first second : option Stream.Chan) (later : list (option Stream.Chan)) :
  fst (Consume ErrAlreadyStarted first fresh) = None
  /\ fst (Consume ErrAlreadyStarted second
            (snd (Consume ErrAlreadyStarted first fresh))) <> None
  /\ ConsumeAll ErrAlreadyStarted (first :: second :: later) fresh
     = None :: repeat (Some ErrAlreadyStarted) (S (List.length later)).
Proof.
  split; [reflexivity|]. split; [discriminate|].
  cbn. now rewrite ConsumeAll_started.
Qed.

End ConsumerFacts.

(** ** More about the supervisor's shutdown and construction *)

Module ShutdownFacts.

Import Stream Spec Shutdown StreamFacts.









(** X3: On a stream without a buffer, ordered and graceful shutdown are the
    same procedure: same calls, same answer. *)
Theorem StopOrdered_without_buffer (env : Env) (t : StreamType)
    (timeout : Time.Duration) (h : History) :
  bufferLayer t = false ->
  StopOrdered env t timeout h = StopGracefully env t timeout h.
Proof.
  intros Hb. unfold StopOrdered, StopGracefully. rewrite Hb. reflexivity.
Qed.

Lemma StopOrdered_without_buffer_witness :
  bufferLayer Examples.bare_stream = false
  /\ StopOrdered Examples.cooperative Examples.bare_stream Time.Second []
     = StopGracefully Examples.cooperative Examples.bare_stream Time.Second [].
Proof.
  split; [reflexivity|].
  exact (StopOrdered_without_buffer Examples.cooperative Examples.bare_stream
           Time.Second [] eq_refl).
Defined.

Lemma monotonic_app env h l : monotonic env -> clock env h <= clock env (h ++ l).
Proof.
  intros Hm. induction l as [| e l IH] using rev_ind.
  - rewrite app_nil_r. apply Z.le_refl.
  - rewrite app_assoc. eapply Z.le_trans; [exact IH | apply Hm].
Qed.

(** What remains of a budget that is not negative never exceeds it, when
    the clock does not run backwards. *)
Lemma remaining_le env timeout h l1 l2 :
  monotonic env -> 0 <= timeout <= Time.maxDuration ->
  Time.sub timeout (Time.sat64 (clock env (h ++ l1 ++ l2) - clock env (h ++ l1)))
  <= timeout.
Proof.
  intros Hm Ht.
  pose proof (monotonic_app env (h ++ l1) l2 Hm) as Hle.
  rewrite <- app_assoc in Hle.
  set (el := Time.sat64 (clock env (h ++ l1 ++ l2) - clock env (h ++ l1))).
  assert (Hel : 0 <= el <= Time.maxDuration).
  { subst el. unfold Time.sat64, Time.minDuration, Time.maxDuration. lia. }
  rewrite TimeFacts.sub_exact.
  - lia.
  - unfold Time.in64, Time.minDuration, Time.maxDuration in *. lia.
Qed.

Ltac within_budget :=
  match goal with
  | |- _ <= ?d <= _ =>
      split;
      [ first [assumption | lia]
      | first
          [ lia
          | match d with
            | Time.sub ?t (Time.sat64 (clock ?e (?h ++ ?l2) - clock ?e (?h ++ ?l1))) =>
                let n := constr:(List.length l1) in
                apply (remaining_le e t h l1 (skipn n l2)); assumption
            end ] ]
  end.

(** What the three shutdown procedures have in common: they call only
    layers the stream holds, and under a clock that does not run backwards
    no wait is given more than the timeout. *)
Definition tidy_run (env : Env) (t : StreamType) (timeout : Time.Duration)
    (h : History) (out : option error * History) : Prop :=
  exists new,
    snd out = h ++ new
    /\ Forall (on_present t) new
    /\ (0 <= timeout <= Time.maxDuration -> monotonic env ->
        Forall (fun d => 0 <= d <= timeout) (budgets_of new))
    /\ (exists later, budgets_of new = timeout :: later).

Ltac tidy :=
  unfold tidy_run; cbn [snd];
  rewrite <- ?app_assoc in *; simpl in *; eexists; (split; [reflexivity|]);
  split;
  [ repeat (first [apply Forall_nil | apply Forall_cons]); first [exact I | reflexivity]
  | split;
    [ intros Hrange Hmono; cbn [budgets_of];
      repeat (first [apply Forall_nil | apply Forall_cons]); within_budget
    | cbn [budgets_of]; eexists; reflexivity ] ].

Lemma StopGracefully_tidy env t timeout h :
  tidy_run env t timeout h (StopGracefully env t timeout h).
Proof.
  destruct t as [c il [|] [|] ol]; calls.
  all: repeat branch.
  all: tidy.
Qed.

Lemma StopOrdered_tidy env t timeout h :
  tidy_run env t timeout h (StopOrdered env t timeout h).
Proof.
  destruct t as [c il [|] [|] ol]; calls.
  all: repeat branch.
  all: tidy.
Qed.

Lemma StopUnordered_tidy env t timeout h :
  tidy_run env t timeout h (StopUnordered env t timeout h).
Proof.
  destruct t as [c il [|] [|] ol]; calls.
  all: repeat branch.
  all: tidy.
Qed.

Lemma budgets_of_app h h' : budgets_of (h ++ h') = budgets_of h ++ budgets_of h'.
Proof.
  induction h as [| e h IH]; [reflexivity|].
  destruct e; cbn; rewrite ?IH; reflexivity.
Qed.

Lemma quarter_range T :
  0 <= T <= Time.maxDuration ->
  0 <= Z.quot T 4 <= Time.maxDuration /\ 0 <= T - Z.quot T 4 <= Time.maxDuration.
Proof.
  intros HT. pose proof (Z.quot_rem' T 4) as Hq.
  pose proof (Z.rem_nonneg T 4 ltac:(lia) ltac:(lia)) as Hr0.
  pose proof (Z.rem_bound_pos T 4 ltac:(lia) ltac:(lia)) as Hr.
  unfold Time.maxDuration in *. lia.
Qed.

Lemma nonneg_in64 T : 0 <= T <= Time.maxDuration -> Time.in64 T.
Proof. unfold Time.in64, Time.minDuration, Time.maxDuration. lia. Qed.

(** X4: [Stop] never calls a layer the stream does not hold: every close, stop
    and wait it makes, in either tier, is on the input, on the output, or
    on a buffer or pipeline that is not nil. *)
Theorem Stop_calls_present (env : Env) (t : StreamType) (T : Time.Duration)
    (h : History) :
  exists new, snd (Stop env t T h) = h ++ new /\ Forall (on_present t) new.
Proof.
  unfold Stop, bind.
  destruct (StopGracefully_tidy env t (Time.sub T (Time.div T 4)) h) as (n1 & H1 & P1 & _).
  destruct (StopGracefully env t (Time.sub T (Time.div T 4)) h) as [[e1 |] h1];
    cbn [snd] in H1; subst h1; [| exists n1; split; [reflexivity | exact P1]].
  set (note := if error_eqb e1 ErrTimeout then ELog LInfo msgDrain
               else ELogErr msgShutdownErr e1).
  assert (Hnote : (if error_eqb e1 ErrTimeout
                   then emit (ELog LInfo msgDrain)
                   else emit (ELogErr msgShutdownErr e1)) (h ++ n1)
                  = (tt, (h ++ n1) ++ [note])).
  { subst note. now destruct (error_eqb e1 ErrTimeout). }
  rewrite Hnote.
  assert (Pnote : on_present t note).
  { subst note. now destruct (error_eqb e1 ErrTimeout). }
  destruct (StopUnordered_tidy env t (Time.div T 4) ((h ++ n1) ++ [note]))
    as (n2 & H2 & P2 & _).
  destruct (StopUnordered env t (Time.div T 4) ((h ++ n1) ++ [note])) as [[e2 |] h2];
    cbn [snd] in H2; subst h2.
  - destruct (error_eqb e2 ErrTimeout); unfold emit, ret; cbn [snd].
    + exists (n1 ++ [note] ++ n2 ++ [ELog LError msgFailedStop; EStackDump]).
      split; [now rewrite <- !app_assoc|].
      repeat (apply Forall_app; split); try assumption; repeat constructor; assumption.
    + exists (n1 ++ [note] ++ n2 ++ [ELogErr msgShutdownErr e2]).
      split; [now rewrite <- !app_assoc|].
      repeat (apply Forall_app; split); try assumption; repeat constructor; assumption.
  - exists (n1 ++ [note] ++ n2). split; [cbn; now rewrite <- !app_assoc|].
    repeat (apply Forall_app; split); try assumption; repeat constructor; assumption.
Qed.

(** X5: With a deadline [T] that is not negative and a clock that does not
    run backwards, the waits of [Stop] are budgeted by tier.  The graceful
    tier is the run of [StopGracefully] with [T - T/4]: its first wait is
    given exactly that and no wait of it more.  When it fails, [Stop]
    leaves a note and the unordered tier is the run of [StopUnordered] with
    [T/4] from there: its first wait is given exactly [T/4] and no wait of
    it more.  The history of [Stop] is the graceful run, then the note, the
    unordered run and the closing notes, none of the notes being a wait; so
    no single wait is given more than [T]. *)
Theorem Stop_budgets (env : Env) (t : StreamType) (T : Time.Duration) (h : History) :
  0 <= T <= Time.maxDuration ->
  monotonic env ->
  exists n1 b1,
    snd (StopGracefully env t (T - Z.quot T 4) h) = h ++ n1
    /\ budgets_of n1 = (T - Z.quot T 4) :: b1
    /\ Forall (fun d => 0 <= d <= T - Z.quot T 4) (budgets_of n1)
    /\ match fst (StopGracefully env t (T - Z.quot T 4) h) with
       | None => snd (Stop env t T h) = h ++ n1
       | Some e1 =>
           exists note n2 b2 notes,
             snd (StopUnordered env t (Z.quot T 4) (h ++ n1 ++ [note]))
             = h ++ n1 ++ [note] ++ n2
             /\ snd (Stop env t T h) = h ++ n1 ++ [note] ++ n2 ++ notes
             /\ budgets_of [note] = [] /\ budgets_of notes = []
             /\ budgets_of n2 = Z.quot T 4 :: b2
             /\ Forall (fun d => 0 <= d <= Z.quot T 4) (budgets_of n2)
       end
    /\ exists new,
         snd (Stop env t T h) = h ++ new
         /\ Forall (fun d => 0 <= d <= T) (budgets_of new).
Proof.
  intros HT Hmono. destruct (quarter_range T HT) as (Hu & Hg).
  assert (Hall : forall graceful unordered,
            Forall (fun d => 0 <= d <= T - Z.quot T 4) graceful ->
            Forall (fun d => 0 <= d <= Z.quot T 4) unordered ->
            Forall (fun d => 0 <= d <= T) (graceful ++ unordered)).
  { intros g u Pg Pu. apply Forall_app. split.
    - eapply Forall_impl; [|exact Pg]. cbn. intros; lia.
    - eapply Forall_impl; [|exact Pu]. cbn. intros; lia. }
  unfold Stop, bind.
  rewrite (TimeFacts.div4_exact T (nonneg_in64 T HT)),
    (TimeFacts.sub_quarter_exact T (nonneg_in64 T HT)).
  destruct (StopGracefully_tidy env t (T - Z.quot T 4) h) as (n1 & H1 & _ & B1 & (b1 & F1)).
  specialize (B1 Hg Hmono).
  destruct (StopGracefully env t (T - Z.quot T 4) h) as [[e1 |] h1];
    cbn [fst snd] in *; subst h1; exists n1, b1;
    (split; [reflexivity|]); (split; [exact F1|]); (split; [exact B1|]).
  2: { split; [reflexivity|]. exists n1. split; [reflexivity|].
       rewrite <- (app_nil_r (budgets_of n1)). apply Hall; [exact B1 | constructor]. }
  set (note := if error_eqb e1 ErrTimeout then ELog LInfo msgDrain
               else ELogErr msgShutdownErr e1).
  assert (Hnote : (if error_eqb e1 ErrTimeout
                   then emit (ELog LInfo msgDrain)
                   else emit (ELogErr msgShutdownErr e1)) (h ++ n1)
                  = (tt, (h ++ n1) ++ [note])).
  { subst note. now destruct (error_eqb e1 ErrTimeout). }
  rewrite Hnote.
  assert (Bnote : budgets_of [note] = []).
  { subst note. now destruct (error_eqb e1 ErrTimeout). }
  destruct (StopUnordered_tidy env t (Z.quot T 4) ((h ++ n1) ++ [note]))
    as (n2 & H2 & _ & B2 & (b2 & F2)).
  specialize (B2 Hu Hmono).
  assert (Hsame : h ++ n1 ++ [note] = (h ++ n1) ++ [note]) by now rewrite app_assoc.
  destruct (StopUnordered env t (Z.quot T 4) ((h ++ n1) ++ [note])) as [[e2 |] h2] eqn:Hrun;
    cbn [snd] in H2; subst h2.
  - set (notes := if error_eqb e2 ErrTimeout
                  then [ELog LError msgFailedStop; EStackDump]
                  else [ELogErr msgShutdownErr e2]).
    assert (Bnotes : budgets_of notes = []).
    { subst notes. now destruct (error_eqb e2 ErrTimeout). }
    assert (Hstop : snd (let (_, h'0) :=
                           (if error_eqb e2 ErrTimeout
                            then (emit (ELog LError msgFailedStop);; emit EStackDump)%stream
                            else emit (ELogErr msgShutdownErr e2))
                             (((h ++ n1) ++ [note]) ++ n2) in
                         ret (Some e2) h'0)
                    = h ++ n1 ++ [note] ++ n2 ++ notes).
    { subst notes. destruct (error_eqb e2 ErrTimeout); unfold emit, bind, ret; cbn [snd];
        now rewrite <- !app_assoc. }
    split.
    + exists note, n2, b2, notes. rewrite Hsame, Hrun. cbn [snd].
      split; [now rewrite <- !app_assoc|]. split; [exact Hstop|].
      split; [exact Bnote|]. split; [exact Bnotes|]. split; [exact F2 | exact B2].
    + exists (n1 ++ [note] ++ n2 ++ notes). split; [exact Hstop|].
      rewrite !budgets_of_app, Bnote, Bnotes. cbn [app]. rewrite app_nil_r.
      now apply Hall.
  - split.
    + exists note, n2, b2, []. rewrite Hsame, Hrun. cbn [snd ret].
      split; [now rewrite <- !app_assoc|].
      split; [rewrite app_nil_r; now rewrite <- !app_assoc|].
      split; [exact Bnote|]. split; [reflexivity|]. split; [exact F2 | exact B2].
    + exists (n1 ++ [note] ++ n2). split; [cbn [snd ret]; now rewrite <- !app_assoc|].
      rewrite !budgets_of_app, Bnote. cbn [app]. now apply Hall.
Qed.

Lemma elapsed_of_app h h' :
  Examples.elapsed_of (h ++ h') = Examples.elapsed_of h + Examples.elapsed_of h'.
Proof.
  induction h as [| e h IH]; [reflexivity|].
  destruct e as [| | | | | l d r | | | | | | | ]; try destruct r as [[| | |] |];
    cbn [app Examples.elapsed_of]; rewrite IH; lia.
Qed.

Lemma stalled_monotonic : monotonic Examples.stalled.
Proof.
  intros h e. cbn [clock Examples.stalled]. rewrite elapsed_of_app.
  destruct e as [| | | | | l d r | | | | | | | ]; try destruct r as [[| | |] |];
    cbn [Examples.elapsed_of]; lia.
Qed.

(** With a processor that blocks forever and four seconds to stop, the
    graceful waits begin at three seconds and the unordered ones at one. *)
Lemma Stop_budgets_witness :
  (0 <= 4 * Time.Second <= Time.maxDuration)
  /\ monotonic Examples.stalled
  /\ exists n1 b1 note n2 b2 notes,
       snd (Stop Examples.stalled Examples.full_stream (4 * Time.Second) [])
       = [] ++ n1 ++ [note] ++ n2 ++ notes
       /\ budgets_of n1 = 3 * Time.Second :: b1
       /\ budgets_of n2 = 1 * Time.Second :: b2.
Proof.
  assert (Hrange : 0 <= 4 * Time.Second <= Time.maxDuration)
    by (vm_compute; split; discriminate).
  split; [exact Hrange|]. split; [exact stalled_monotonic|].
  destruct (Stop_budgets Examples.stalled Examples.full_stream (4 * Time.Second) []
              Hrange stalled_monotonic) as (n1 & b1 & _ & Hb1 & _ & Htiers & _).
  assert (Hfail : fst (StopGracefully Examples.stalled Examples.full_stream
                         (4 * Time.Second - Z.quot (4 * Time.Second) 4) [])
                  = Some ErrTimeout) by (vm_compute; reflexivity).
  rewrite Hfail in Htiers.
  destruct Htiers as (note & n2 & b2 & notes & _ & Hstop & _ & _ & Hb2 & _).
  exists n1, b1, note, n2, b2, notes.
  split; [exact Hstop|]. split; [exact Hb1 | exact Hb2].
Defined.

Ltac new_calls :=
  cbv beta iota zeta delta
    [New start bind ret emit NewLayer Consume set_layer is_nil fst snd negb
     conf inputLayer bufferLayer pipelineLayer outputLayer
     Type_ BufferConf Processors PipelineConf List.length Z.of_nat Z.ltb Z.compare].

Ltac last_call :=
  match goal with
  | |- exists pre, ?l = pre ++ _ => exists (removelast l); reflexivity
  end.

(** X6: How [New] fails.  [New] always calls the input's constructor
    first, and calls the constructors in stream order, for the layers the
    configuration asks for and no others.  It returns an error exactly when
    it returns no stream, and only because a constructor or a [Consume]
    answered that error, that call then being the last one made.  So when a
    constructor returns an error no later layer is constructed and nothing
    is wired, and when a [Consume] returns an error no later layer is
    wired.  The readiness endpoint is registered, and the goroutine that
    watches the output close is started, only when [New] returns a
    stream. *)
Theorem New_failure (env : Env) (c : Config) (h : History) :
  match New env c h with
  | (made, err, h') =>
      exists new,
        h' = h ++ new
        /\ (exists r0 tail, new = ENew Input r0 :: tail)
        /\ (exists rest, layers_of c = constructed_of new ++ rest
                         /\ (made <> None -> rest = []))
        /\ (made = None <-> err <> None)
        /\ (forall e, err = Some e ->
              (exists l pre, new = pre ++ [ENew l (Some e)])
              \/ (exists l ch pre, new = pre ++ [EConsume l ch (Some e)]))
        /\ (forall l e, In (ENew l (Some e)) new ->
              made = None /\ err = Some e /\ consumes_of new = []
              /\ exists pre, new = pre ++ [ENew l (Some e)])
        /\ (forall l ch e, In (EConsume l ch (Some e)) new ->
              made = None /\ err = Some e
              /\ exists pre, new = pre ++ [EConsume l ch (Some e)])
        /\ endpoints_of new = match made with Some _ => ["/ready"%string] | None => [] end
        /\ (In EGoWatchClose new <-> made <> None)
  end.
Proof.
  destruct c as [ic [bt] [procs] oc].
  unfold layers_of. new_calls.
  destruct (String.eqb_spec bt "none") as [Hb | Hb];
    destruct procs as [| p ps]; new_calls.
  all: repeat
         (match goal with
          | |- context [match construct ?e ?hh ?l with _ => _ end] =>
              destruct (construct e hh l) eqn:?
          | |- context [match consume ?e ?hh ?l ?ch with _ => _ end] =>
              destruct (consume e hh l ch) eqn:?
          end; new_calls).
  all: rewrite <- ?app_assoc; cbn [app]; eexists; (split; [reflexivity|]).
  all: cbn [constructed_of consumes_of endpoints_of app].
  all: split; [eexists; eexists; reflexivity | ].
  all: split; [eexists; split; [reflexivity | intros; (reflexivity || congruence)] | ].
  all: split; [split; intros; congruence | ].
  all: split; [failed_call | ].
  all: split;
    [intros ? ? Hin; pick_event Hin; same_event Hin;
     (split; [reflexivity | split; [reflexivity | split; [reflexivity | last_call]]]) | ].
  all: split;
    [intros ? ? ? Hin; pick_event Hin; same_event Hin;
     (split; [reflexivity | split; [reflexivity | last_call]]) | ].
  all: split; [reflexivity|].
  all: split; [intros Hin; pick_event Hin; congruence | intros Hmade].
  all: first [congruence | cbn; tauto].
Qed.

(** With a buffer that cannot be constructed, [New] constructs the input,
    fails on the buffer and stops there with the buffer's error. *)
Lemma New_failure_witness :
  exists e,
    New Examples.broken_buffer Examples.full_conf []
    = (None, Some e, [ENew Input None; ENew Buffer (Some e)]).
Proof.
  pose proof (New_failure Examples.broken_buffer Examples.full_conf []) as Hnew.
  assert (Hrun : New Examples.broken_buffer Examples.full_conf []
                 = (None, Some (ErrOther "unknown buffer type"),
                    [ENew Input None;
                     ENew Buffer (Some (ErrOther "unknown buffer type"))]))
    by (vm_compute; reflexivity).
  rewrite Hrun in Hnew.
  destruct Hnew as (new & Hh & _ & _ & _ & _ & Hfailed & _).
  cbn [app] in Hh. subst new.
  destruct (Hfailed Buffer (ErrOther "unknown buffer type") ltac:(cbn; tauto))
    as (_ & Herr & _).
  exists (ErrOther "unknown buffer type"). exact Hrun.
Defined.

End ShutdownFacts.

(** ** More about the reader's loop *)

Module LoopFacts.

Import AsyncReader Spec ReaderSpec ReaderFacts.

Lemma connects_of_app tr tr' : connects_of (tr ++ tr') = connects_of tr + connects_of tr'.
Proof.
  induction tr as [| o tr IH]; [reflexivity|].
  destruct o as [[e |] | | | | | | | | | | | | | | ]; cbn [app connects_of];
    rewrite IH; lia.
Qed.

Lemma fails_of_app tr tr' : fails_of (tr ++ tr') = fails_of tr + fails_of tr'.
Proof.
  induction tr as [| o tr IH]; [reflexivity|].
  destruct o as [[e |] | | | | | | | | | | | | | | ]; cbn [app fails_of];
    rewrite IH; lia.
Qed.

Lemma losses_of_app tr tr' : losses_of (tr ++ tr') = losses_of tr + losses_of tr'.
Proof.
  induction tr as [| o tr IH]; [reflexivity|].
  destruct o as [| msg aFn [[| | | text] |] | | | | | | | | | | | | | ];
    cbn [app losses_of]; rewrite IH; lia.
Qed.

Lemma sends_of_app tr tr' : sends_of (tr ++ tr') = sends_of tr ++ sends_of tr'.
Proof.
  induction tr as [| o tr IH]; [reflexivity|].
  destruct o; cbn [app sends_of]; rewrite IH; reflexivity.
Qed.

Lemma reads_of_app tr tr' : reads_of (tr ++ tr') = reads_of tr ++ reads_of tr'.
Proof.
  induction tr as [| o tr IH]; [reflexivity|].
  destruct o as [| [m |] aFn [e |] | | | | | | | | | | | | | ];
    cbn [app reads_of]; rewrite IH; reflexivity.
Qed.

Lemma messages_app bs bs' : messages (bs ++ bs') = messages bs + messages bs'.
Proof.
  induction bs as [| b bs IH]; [reflexivity|]. cbn [app messages]. rewrite IH. lia.
Qed.

(** The counters against what the connector answered. *)
Definition counters_inv (r : Reader) : Prop :=
  input_connection_up (stats r) = connects_of (trace r)
  /\ input_connection_lost (stats r) = losses_of (trace r)
  /\ input_connection_failed (stats r) <= fails_of (trace r)
     <= input_connection_failed (stats r) + 1
  /\ (leaving (pc r) = false -> input_connection_failed (stats r) = fails_of (trace r))
  /\ losses_of (trace r) <= connects_of (trace r) <= losses_of (trace r) + 1
  /\ (connected r = 1 -> connects_of (trace r) = losses_of (trace r) + 1)
  /\ (reading (pc r) = true -> connected r = 1)
  /\ (reading (pc r) = false -> leaving (pc r) = false -> connected r = 0)
  /\ (leaving (pc r) = false -> connected r = 0 ->
      connects_of (trace r) = losses_of (trace r)).

Ltac counts :=
  rewrite ?connects_of_app, ?fails_of_app, ?losses_of_app;
  cbn [connects_of fails_of losses_of reading leaving].

Lemma counters_inv_step lib r i r' :
  counters_inv r -> step lib r i = Some r' -> counters_inv r'.
Proof.
  intros (Hup & Hlost & Hfail & Hfail' & Hbal & Hone & Hread & Hconn & Hzero) Hstep.
  unfold counters_inv.
  destruct i; moves Hstep; counts.
  all: repeat match goal with
              | e : error |- _ => destruct e
              | e : option error |- _ => destruct e
              end; cbn in *; try discriminate.
  all: repeat match goal with
              | H : ?a = ?a -> _ |- _ => specialize (H eq_refl)
              end.
  all: repeat split; intros; try discriminate; try lia.
  all: try solve [intuition (try discriminate; try lia)].
Qed.

Lemma counters_inv_reachable lib r : reachable lib r -> counters_inv r.
Proof.
  apply reachable_invariant.
  - unfold counters_inv, NewAsyncReader. fields. cbn.
    repeat split; intros; try discriminate; try lia.
  - intros. eapply counters_inv_step; eauto.
Qed.

(** X7: The connection counters count the connector's answers.  In every
    state the reader can be in, [input_connection_up] is the number of
    times [ConnectWithContext] returned nil and [input_connection_lost] the
    number of times [Read] returned [ErrNotConnected];
    [input_connection_failed] is the number of failed connects, but for
    the one failed connect, not counted, on which the loop may have ended.
    Connections are lost no more often than made.  While the loop is
    between a connect and its end the reader reports connected, and
    whenever it reports connected exactly one connection more was made
    than lost. *)
Theorem counters_follow_connector (lib : BackOffLib) (r : Reader) :
  reachable lib r ->
  input_connection_up (stats r) = connects_of (trace r)
  /\ input_connection_lost (stats r) = losses_of (trace r)
  /\ input_connection_failed (stats r) <= fails_of (trace r)
     <= input_connection_failed (stats r) + 1
  /\ (leaving (pc r) = false -> input_connection_failed (stats r) = fails_of (trace r))
  /\ input_connection_lost (stats r) <= input_connection_up (stats r)
     <= input_connection_lost (stats r) + 1
  /\ (reading (pc r) = true -> Connected r = true)
  /\ (Connected r = true ->
      input_connection_up (stats r) = input_connection_lost (stats r) + 1).
Proof.
  intros Hreach.
  destruct (counters_inv_reachable lib r Hreach)
    as (Hup & Hlost & Hfail & Hfail' & Hbal & Hone & Hread & _ & _).
  unfold Connected. rewrite Hup, Hlost.
  split; [reflexivity|]. split; [reflexivity|]. split; [exact Hfail|].
  split; [exact Hfail'|]. split; [exact Hbal|]. split.
  - intros Hp. rewrite (Hread Hp). reflexivity.
  - intros Hc. apply Hone. lia.
Qed.

Lemma reconnecting_reachable :
  reachable Examples.plain_backoff (Examples.state_after Examples.reconnecting).
Proof. exists Examples.reconnecting. vm_compute. reflexivity. Defined.

(** After a failed connect, a connect, a lost connection and a second
    connect the counters read one failed, two up and one lost. *)
Lemma counters_follow_connector_witness :
  reachable Examples.plain_backoff (Examples.state_after Examples.reconnecting)
  /\ input_connection_up (stats (Examples.state_after Examples.reconnecting))
     = input_connection_lost (stats (Examples.state_after Examples.reconnecting)) + 1
  /\ input_connection_failed (stats (Examples.state_after Examples.reconnecting)) = 1.
Proof.
  split; [exact reconnecting_reachable|].
  destruct (counters_follow_connector Examples.plain_backoff
              (Examples.state_after Examples.reconnecting) reconnecting_reachable)
    as (_ & _ & _ & Hfailed & _ & _ & Hone).
  split.
  - apply Hone. vm_compute. reflexivity.
  - rewrite (Hfailed eq_refl). vm_compute. reflexivity.
Defined.

Lemma closes_of_app tr tr' : closes_of (tr ++ tr') = (closes_of tr + closes_of tr')%nat.
Proof.
  induction tr as [| o tr IH]; [reflexivity|].
  destruct o; cbn [app closes_of]; rewrite IH; reflexivity.
Qed.

Lemma length_finish n ws : List.length (finish n ws) = List.length ws.
Proof.
  revert n. induction ws as [| w ws IH]; intros [| n]; cbn; try reflexivity.
  now rewrite IH.
Qed.

Lemma pending_none_done ws n w :
  pending ws = [] -> nth_error ws n = Some w -> w_done w = true.
Proof.
  unfold pending. revert n. induction ws as [| v ws IH]; intros n Hp Hn.
  - destruct n; discriminate.
  - cbn in Hp. destruct (w_done v) eqn:Hv; cbn in Hp; [|discriminate].
    destruct n as [| n]; cbn in Hn.
    + now injection Hn as <-.
    + eapply IH; eauto.
Qed.

Lemma pending_none_finished ws : pending ws = [] -> finished ws = List.length ws.
Proof.
  unfold pending, finished. induction ws as [| v ws IH]; [reflexivity|].
  cbn. destruct (w_done v); cbn; [intros H; now rewrite IH | discriminate].
Qed.

Lemma finished_le ws : (finished ws <= List.length ws)%nat.
Proof. unfold finished. apply filter_length_le. Qed.

(** The has-closed latch, the transactions channel and the ack-waiters
    against the point the loop goroutine is at. *)
Definition closing_inv (r : Reader) : Prop :=
  hasClosed (shutSig r) = is_closed (pc r)
  /\ closes_of (trace r) = (if is_closed (pc r) then 1 else 0)%nat
  /\ List.length (sends_of (trace r)) = List.length (waiters r)
  /\ (pc r = PWaitReader \/ pc r = PClosed -> pending (waiters r) = []).

Lemma closing_inv_step lib r i r' :
  closing_inv r -> step lib r i = Some r' -> closing_inv r'.
Proof.
  intros (Hlatch & Hchan & Hsent & Hdone) Hstep. unfold closing_inv.
  destruct i; moves Hstep.
  all: rewrite ?closes_of_app, ?sends_of_app, ?length_app, ?length_finish;
    cbn [closes_of sends_of List.length is_closed].
  all: repeat match goal with
              | H : _ || _ = false |- _ =>
                  apply orb_false_iff in H; destruct H as [? H];
                  try apply negb_false_iff in H
              end.
  all: repeat match goal with
              | H : pc ?x = _ |- _ => rewrite H in *
              end; cbn [is_closed] in *.
  all: repeat split; try assumption; try reflexivity; try lia; try congruence.
  all: try (intros [Hp | Hp]; discriminate).
  all: try (intros Hp;
            match goal with
            | Hn : nth_error ?ws ?n = Some ?w, Hw : w_done ?w = false |- _ =>
                rewrite (pending_none_done ws n w (Hdone Hp) Hn) in Hw;
                discriminate
            end).
  all: intros _; apply Hdone; now left.
Qed.

Lemma closing_inv_reachable lib r : reachable lib r -> closing_inv r.
Proof.
  apply reachable_invariant.
  - unfold closing_inv, NewAsyncReader. fields. cbn.
    repeat split; intros [H | H]; discriminate.
  - intros. eapply closing_inv_step; eauto.
Qed.

(** X8: The reader closes only after its ack-waiters.  In every state the
    reader can be in: the has-closed latch is set exactly when the loop
    goroutine has finished; the transactions channel has been closed once
    if it has finished and not at all otherwise; every batch handed
    downstream got one ack-waiter; and the acknowledgement function was
    invoked no more often than batches were handed downstream.  When the
    loop goroutine has finished, no ack-waiter is still waiting, the reader
    reports not connected, and every batch handed downstream was either
    acknowledged to the connector or abandoned on close-now; without
    close-now every one was acknowledged. *)
Theorem closes_after_acks (lib : BackOffLib) (r : Reader) :
  reachable lib r ->
  hasClosed (shutSig r) = is_closed (pc r)
  /\ closes_of (trace r) = (if is_closed (pc r) then 1 else 0)%nat
  /\ List.length (waiters r) = List.length (sends_of (trace r))
  /\ (List.length (acks_of (trace r)) <= List.length (sends_of (trace r)))%nat
  /\ (is_closed (pc r) = true ->
      pending (waiters r) = []
      /\ Connected r = false
      /\ (List.length (acks_of (trace r)) + abandons_of (trace r))%nat
         = List.length (sends_of (trace r))
      /\ (closeNow (shutSig r) = false ->
          List.length (acks_of (trace r)) = List.length (sends_of (trace r)))).
Proof.
  intros Hreach.
  destruct (closing_inv_reachable lib r Hreach) as (Hlatch & Hchan & Hsent & Hdone).
  destruct (acks_inv_reachable lib r Hreach) as (Hcount & Hnone).
  destruct (connected_inv_reachable lib r Hreach) as (_ & _ & Hzero).
  pose proof (finished_le (waiters r)) as Hle.
  split; [exact Hlatch|]. split; [exact Hchan|]. split; [now rewrite Hsent|].
  split; [lia|].
  intros Hclosed.
  assert (Hpc : pc r = PClosed) by (destruct (pc r); try discriminate; reflexivity).
  assert (Hpend : pending (waiters r) = []) by (apply Hdone; now right).
  pose proof (pending_none_finished (waiters r) Hpend) as Hall.
  split; [exact Hpend|]. split.
  - unfold Connected. now rewrite (Hzero Hpc).
  - split; [lia|]. intros Hc. specialize (Hnone Hc). lia.
Qed.

Lemma clean_shutdown_reachable :
  reachable Examples.plain_backoff (Examples.state_after Examples.clean_shutdown).
Proof. exists Examples.clean_shutdown. vm_compute. reflexivity. Defined.

(** A reader shut down at leisure after one batch has acknowledged that
    batch by the time it has closed. *)
Lemma closes_after_acks_witness :
  reachable Examples.plain_backoff (Examples.state_after Examples.clean_shutdown)
  /\ hasClosed (shutSig (Examples.state_after Examples.clean_shutdown)) = true
  /\ List.length (acks_of (trace (Examples.state_after Examples.clean_shutdown))) = 1%nat.
Proof.
  split; [exact clean_shutdown_reachable|].
  destruct (closes_after_acks Examples.plain_backoff
              (Examples.state_after Examples.clean_shutdown) clean_shutdown_reachable)
    as (Hlatch & _ & _ & _ & Hclosed).
  split.
  - rewrite Hlatch. vm_compute. reflexivity.
  - destruct (Hclosed eq_refl) as (_ & _ & _ & Hacked).
    rewrite (Hacked eq_refl). vm_compute. reflexivity.
Defined.

(** A closed reader makes no further move of its own. *)
Lemma closed_step lib r i r' :
  pc r = PClosed -> pending (waiters r) = [] -> step lib r i = Some r' ->
  pc r' = PClosed /\ waiters r' = waiters r /\ trace r' = trace r
  /\ stats r' = stats r /\ connected r' = connected r
  /\ connBackoff r' = connBackoff r.
Proof.
  intros Hpc Hpend Hstep.
  destruct i as [res | msg aFn err | | | | n res ackErr | n | | res | | ];
    unfold step in Hstep; rewrite ?Hpc in Hstep; cbv zeta in Hstep;
    try discriminate.
  - destruct (atLeisure (shutSig r)); discriminate.
  - destruct (nth_error (waiters r) n) as [w |] eqn:Hn; [|discriminate].
    rewrite (pending_none_done _ _ _ Hpend Hn) in Hstep. discriminate.
  - destruct (nth_error (waiters r) n) as [w |] eqn:Hn; [|discriminate].
    rewrite (pending_none_done _ _ _ Hpend Hn) in Hstep. discriminate.
  - injection Hstep as <-. fields. repeat split; assumption.
  - injection Hstep as <-. fields. repeat split; assumption.
Qed.

(** X9: Closed is terminal: from a state in which the loop goroutine has
    finished, whatever is still signalled, the reader stays closed, makes no
    further observable call, and keeps its counters, its ack-waiters and its
    cleared connected flag. *)
Theorem closed_is_terminal (lib : BackOffLib) (r : Reader)
    (script : list Input) (r' : Reader) :
  reachable lib r -> is_closed (pc r) = true -> run lib r script = Some r' ->
  is_closed (pc r') = true
  /\ trace r' = trace r /\ stats r' = stats r /\ waiters r' = waiters r
  /\ Connected r' = false
  /\ Forall (fun i => loop_move i = false) script.
Proof.
  intros Hreach Hclosed Hrun.
  assert (Hpc : pc r = PClosed) by (destruct (pc r); try discriminate; reflexivity).
  destruct (closing_inv_reachable lib r Hreach) as (_ & _ & _ & Hdone).
  assert (Hpend : pending (waiters r) = []) by (apply Hdone; now right).
  destruct (connected_inv_reachable lib r Hreach) as (_ & _ & Hzero).
  specialize (Hzero Hpc). clear Hreach Hclosed Hdone.
  revert r Hrun Hpc Hpend Hzero.
  induction script as [| i script IH]; intros r Hrun Hpc Hpend Hzero.
  - cbn in Hrun. injection Hrun as <-. unfold Connected. rewrite Hpc, Hzero.
    repeat split. constructor.
  - cbn in Hrun. destruct (step lib r i) as [r1 |] eqn:Hstep; [|discriminate].
    destruct (closed_step lib r i r1 Hpc Hpend Hstep) as (Hpc1 & Hw & Ht & Hs & Hc & _).
    assert (Hmove : loop_move i = false).
    { destruct i; try reflexivity; unfold step in Hstep; rewrite Hpc in Hstep;
        try discriminate.
      destruct (atLeisure (shutSig r)); discriminate. }
    destruct (IH r1 Hrun Hpc1 ltac:(now rewrite Hw) ltac:(now rewrite Hc))
      as (H1 & H2 & H3 & H4 & H5 & H6).
    rewrite H2, H3, H4, Ht, Hs, Hw.
    repeat split; try assumption. now constructor.
Qed.

(** The reader that has shut down stays as it is when shutdown is
    signalled again. *)
Lemma closed_is_terminal_witness :
  reachable Examples.plain_backoff (Examples.state_after Examples.clean_shutdown)
  /\ is_closed (pc (Examples.state_after Examples.clean_shutdown)) = true
  /\ exists r',
       run Examples.plain_backoff (Examples.state_after Examples.clean_shutdown)
         [ICloseNow; ICloseAsync] = Some r'
       /\ trace r' = trace (Examples.state_after Examples.clean_shutdown).
Proof.
  split; [exact clean_shutdown_reachable|]. split; [reflexivity|].
  eexists. split; [vm_compute; reflexivity|].
  refine (proj1 (proj2 (closed_is_terminal Examples.plain_backoff
                          (Examples.state_after Examples.clean_shutdown)
                          [ICloseNow; ICloseAsync] _
                          clean_shutdown_reachable eq_refl _))).
  vm_compute. reflexivity.
Defined.

Lemma sublist_nil_l {A} (l : list A) : sublist [] l.
Proof. induction l; constructor; assumption. Qed.

Lemma sublist_refl {A} (l : list A) : sublist l l.
Proof. induction l; constructor; assumption. Qed.

Lemma sublist_snoc_both {A} (l l' : list A) x :
  sublist l l' -> sublist (l ++ [x]) (l' ++ [x]).
Proof.
  induction 1; cbn.
  - apply sublist_keep. apply sublist_nil.
  - now apply sublist_skip.
  - now apply sublist_keep.
Qed.

Lemma sublist_snoc_skip {A} (l l' : list A) x : sublist l l' -> sublist l (l' ++ [x]).
Proof.
  induction 1; cbn.
  - apply sublist_skip. apply sublist_nil.
  - now apply sublist_skip.
  - now apply sublist_keep.
Qed.

Lemma sublist_app_l {A} (l k l' : list A) : sublist (l ++ k) l' -> sublist l l'.
Proof.
  intros H. remember (l ++ k) as m eqn:Hm. revert l Hm.
  induction H as [| x m l' H IH | x m l' H IH]; intros l0 Hm.
  - destruct l0; [constructor | discriminate].
  - apply sublist_skip. now apply IH.
  - destruct l0 as [| y l0]; [apply sublist_nil_l|].
    cbn in Hm. injection Hm as -> ->. apply sublist_keep. now apply IH.
Qed.

Lemma map_finish n ws : map w_msg (finish n ws) = map w_msg ws.
Proof.
  revert n. induction ws as [| w ws IH]; intros [| n]; cbn; try reflexivity.
  now rewrite IH.
Qed.

(** What went downstream against what [Read] returned. *)
Definition order_inv (r : Reader) : Prop :=
  sublist (sends_of (trace r) ++ offered (pc r)) (reads_of (trace r))
  /\ map w_msg (waiters r) = sends_of (trace r)
  /\ messages (sends_of (trace r) ++ offered (pc r)) <= input_received (stats r).

Lemma order_inv_step lib r i r' :
  order_inv r -> step lib r i = Some r' -> order_inv r'.
Proof.
  intros (Hsub & Hmap & Hcount) Hstep. unfold order_inv.
  destruct i; moves Hstep.
  all: repeat match goal with
              | H : pc ?x = _ |- _ => rewrite H in *
              end.
  all: repeat match goal with
              | m : option Batch |- _ => destruct m
              | e : option error |- _ => destruct e
              end; try discriminate.
  all: rewrite ?sends_of_app, ?reads_of_app, ?map_app, ?map_finish;
    cbn [sends_of reads_of offered map w_msg app] in *;
    rewrite ?app_nil_r in *.
  all: try (split; [| split]; first [assumption | congruence | idtac]).
  all: repeat match goal with
              | |- sublist (_ ++ [?x]) (_ ++ [?x]) => apply sublist_snoc_both
              | |- sublist _ (_ ++ [_]) => apply sublist_snoc_skip
              | H : sublist (?l ++ ?k) ?m |- sublist ?l ?m => exact (sublist_app_l l k m H)
              | H : sublist ?l ?m |- sublist ?l ?m => exact H
              end.
  all: rewrite ?messages_app in *; cbn [messages] in *; try lia.
Qed.

Lemma order_inv_reachable lib r : reachable lib r -> order_inv r.
Proof.
  apply reachable_invariant.
  - unfold order_inv, NewAsyncReader. fields. cbn.
    repeat split; [constructor | lia].
  - intros. eapply order_inv_step; eauto.
Qed.

(** X10: The reader hands batches downstream in the order [Read] returned them:
    in every state the reader can be in, the batches handed downstream are,
    in order, batches that [Read] returned with a nil error, none of them
    twice; the ack-waiters were spawned for exactly these batches, in the
    same order; and [input_received] is at least the number of messages
    handed downstream. *)
Theorem sends_in_read_order (lib : BackOffLib) (r : Reader) :
  reachable lib r ->
  sublist (sends_of (trace r)) (reads_of (trace r))
  /\ map w_msg (waiters r) = sends_of (trace r)
  /\ messages (sends_of (trace r)) <= input_received (stats r).
Proof.
  intros Hreach. destruct (order_inv_reachable lib r Hreach) as (Hsub & Hmap & Hcount).
  split; [exact (sublist_app_l _ _ _ Hsub)|]. split; [exact Hmap|].
  rewrite messages_app in Hcount.
  assert (0 <= messages (offered (pc r))).
  { destruct (pc r); cbn; lia. }
  lia.
Qed.

Lemma sends_in_read_order_witness :
  reachable Examples.plain_backoff (Examples.state_after Examples.clean_shutdown)
  /\ sublist [Examples.foobar]
       (reads_of (trace (Examples.state_after Examples.clean_shutdown)))
  /\ messages [Examples.foobar]
     <= input_received (stats (Examples.state_after Examples.clean_shutdown)).
Proof.
  split; [exact clean_shutdown_reachable|].
  destruct (sends_in_read_order Examples.plain_backoff
              (Examples.state_after Examples.clean_shutdown) clean_shutdown_reachable)
    as (Hsub & _ & Hcount).
  split; [exact Hsub | exact Hcount].
Defined.

Lemma moves_left_leaving p : moves_left p = 0%nat <-> leaving p = true.
Proof.
  destruct p as [[| ? ?] | [| ? ?] ? | | | | | | ]; cbn; split; intros H;
    first [reflexivity | discriminate].
Qed.

Lemma at_leisure_step lib r i r' :
  atLeisure (shutSig r) = true -> step lib r i = Some r' ->
  atLeisure (shutSig r') = true
  /\ (moves_left (pc r') <= moves_left (pc r) - (if loop_move i then 1 else 0))%nat.
Proof.
  intros Hleisure Hstep.
  destruct i; moves Hstep.
  all: repeat match goal with
              | H : pc ?x = _ |- _ => rewrite H in *
              end.
  all: rewrite ?Hleisure in *; cbn [orb] in *; try discriminate.
  all: repeat match goal with
              | f : ConnFrom |- _ => destruct f
              end.
  all: cbn [moves_left loop_move]; split; first [assumption | reflexivity | lia].
Qed.

(** X11: At-leisure shutdown is bounded.  Once at-leisure shutdown is signalled
    the signal stays, and the loop goroutine makes at most four more moves
    of its own (a backoff timer, a connect, a read, a reconnect) before it
    leaves the loop for its deferred shutdown; the moves of ack-waiters and
    further signals do not delay it. *)
Theorem at_leisure_bounded (lib : BackOffLib) (r : Reader)
    (script : list Input) (r' : Reader) :
  atLeisure (shutSig r) = true -> run lib r script = Some r' ->
  atLeisure (shutSig r') = true
  /\ (moves_left (pc r') <= moves_left (pc r) - loop_moves script)%nat
  /\ (4 <= loop_moves script -> leaving (pc r') = true)%nat.
Proof.
  intros Hleisure Hrun.
  assert (Hmain : atLeisure (shutSig r') = true
                  /\ (moves_left (pc r') <= moves_left (pc r) - loop_moves script)%nat).
  { revert r Hleisure Hrun. induction script as [| i script IH]; intros r Hleisure Hrun.
    - cbn in Hrun. injection Hrun as <-. split; [assumption | cbn; lia].
    - cbn in Hrun. destruct (step lib r i) as [r1 |] eqn:Hstep; [|discriminate].
      destruct (at_leisure_step lib r i r1 Hleisure Hstep) as (Hl1 & Hm1).
      destruct (IH r1 Hl1 Hrun) as (Hl' & Hm').
      split; [assumption|]. cbn [loop_moves]. lia. }
  destruct Hmain as (Hl & Hm). split; [exact Hl|]. split; [exact Hm|].
  intros Hfour. apply moves_left_leaving.
  assert (moves_left (pc r) <= 4)%nat.
  { destruct (pc r) as [[| ? ?] | [| ? ?] ? | | | | | | ]; cbn; lia. }
  lia.
Qed.

(** A reader told to close while it offers a batch: the batch is taken,
    a read loses the connection, the reconnect succeeds, and the loop has
    left. *)
Lemma at_leisure_bounded_witness :
  atLeisure (shutSig Examples.told_to_close) = true
  /\ run Examples.plain_backoff Examples.told_to_close Examples.last_moves
     = Some Examples.after_last_moves
  /\ (moves_left (pc Examples.after_last_moves)
      <= moves_left (pc Examples.told_to_close) - loop_moves Examples.last_moves)%nat.
Proof.
  assert (Hrun : run Examples.plain_backoff Examples.told_to_close Examples.last_moves
                 = Some Examples.after_last_moves) by (vm_compute; reflexivity).
  split; [reflexivity|]. split; [exact Hrun|].
  exact (proj1 (proj2 (at_leisure_bounded Examples.plain_backoff Examples.told_to_close
                         Examples.last_moves Examples.after_last_moves eq_refl Hrun))).
Defined.

End LoopFacts.
